(** * ComplianceCore: the query responder, the benchmark scoring and the
      comparator contract

    The development follows the Python sources:
    - [src/src/app.py], function [chat_with_documents];
    - [src/src/benchmark.py], methods [run_compliance_benchmark] and
      [_calculate_summary_metrics] of [CAELUSBenchmark];
    - the comparator of the rule engine, whose module
      ([compliance_checker]) is imported by the sources but is not part of
      them; it is modelled from the specification.

    Conventions of the embedding.
    - A Python [str] is a Rocq [string]; each [ascii] is read as one code
      point in the range U+0000..U+00FF, and [str.lower], the regular
      expression classes [\d] and [\s] are the ones Python applies on that
      range.  Code points above U+00FF are outside the model.
    - A Python [dict] with string keys and string values is a
      [gmap string string]; [d.get(k, v)] is [default v (d !! k)].
    - A Python [float] is a [spec_float] at precision 53 and maximal
      exponent 1024 (IEEE 754 binary64), with the operations of the
      standard library's specification of floating-point arithmetic.
    - A call that may raise returns [result A = exn + A]. *)

From Stdlib Require Import ZArith String Ascii Bool Lia DecimalString.
From Stdlib Require Import QArith.
From Stdlib Require Import Floats.SpecFloat.
From stdpp Require Import gmap strings list.

Open Scope string_scope.

(** ** Python values and primitives *)
Module Py.

(** Exceptions carry their class name and their message. *)
Record exn := Exn { exn_class : string; exn_msg : string }.

Definition result (A : Type) : Type := (exn + A)%type.

Definition ret {A} (a : A) : result A := inr a.
Definition raise {A} (e : exn) : result A := inl e.

Definition bind {A B} (m : result A) (k : A -> result B) : result B :=
  match m with
  | inl e => inl e
  | inr a => k a
  end.

(** [str(e)] *)
Definition str_of_exn (e : exn) : string := exn_msg e.

(** The exception CPython raises when a local name is read before any
    assignment to it was executed. *)
Definition UnboundLocalError (name : string) : exn :=
  Exn "UnboundLocalError"
      ("cannot access local variable '" +:+ name
         +:+ "' where it is not associated with a value").

Definition ValueError (msg : string) : exn := Exn "ValueError" msg.

(** *** Characters *)

Definition code (c : ascii) : N := N_of_ascii c.

Definition in_range (lo hi : N) (c : ascii) : bool :=
  ((lo <=? code c) && (code c <=? hi))%N.

(** [\d] on U+0000..U+00FF: the decimal digits 0-9. *)
Definition is_digit (c : ascii) : bool := in_range 48 57 c.

(** [\s] on U+0000..U+00FF: TAB..CR, FS..US, SPACE, NEL and NBSP. *)
Definition is_space (c : ascii) : bool :=
  in_range 9 13 c || in_range 28 32 c
  || (code c =? 133)%N || (code c =? 160)%N.

(** [str.lower] on one code point of U+0000..U+00FF: A-Z, and the
    Latin-1 capitals U+00C0..U+00DE except the multiplication sign. *)
Definition lower_char (c : ascii) : ascii :=
  if in_range 65 90 c
     || (in_range 192 222 c && negb (code c =? 215)%N)
  then ascii_of_N (code c + 32)
  else c.

Fixpoint lower (s : string) : string :=
  match s with
  | EmptyString => EmptyString
  | String c s' => String (lower_char c) (lower s')
  end.

(** *** Strings *)

Fixpoint startswith (p s : string) : bool :=
  match p, s with
  | EmptyString, _ => true
  | String a p', String b s' => if Ascii.eqb a b then startswith p' s' else false
  | String _ _, EmptyString => false
  end.

(** [needle in hay] *)
Fixpoint contains (needle hay : string) : bool :=
  if startswith needle hay then true
  else match hay with
       | EmptyString => false
       | String _ hay' => contains needle hay'
       end.

Fixpoint all_chars (p : ascii -> bool) (s : string) : bool :=
  match s with
  | EmptyString => true
  | String c s' => p c && all_chars p s'
  end.

(** [str(n)] for a natural number. *)
Definition str_of_nat (n : nat) : string :=
  NilZero.string_of_uint (Nat.to_uint n).

Definition str_of_Z (z : Z) : string :=
  match z with
  | Zneg p => "-" +:+ str_of_nat (Pos.to_nat p)
  | _ => str_of_nat (Z.to_nat z)
  end.

(** *** Numbers *)

Definition prec : Z := 53.
Definition emax : Z := 1024.

(** [float(n)] for an integer [n]: the nearest binary64, ties to even. *)
Definition float_of_Z (n : Z) : spec_float :=
  binary_normalize prec emax n 0 false.

(** The integer [p < 2^53] written on 53 bits: [p] shifted left until
    its leading bit is bit 52. *)
Definition mantissa53 (p : positive) : positive :=
  match (Zpos (digits2_pos p) - 53)%Z with
  | Zneg k => Pos.iter xO p k
  | _ => p
  end.

(** [p] shifted right by [n > 0] bits and rounded to nearest, ties to
    even: the quotient, the last bit shifted out and whether a lower
    bit was set decide the rounding. *)
Definition round_shift (p n : Z) : Z :=
  let q := (p / 2 ^ n)%Z in
  let r := Z.odd (p / 2 ^ (n - 1)) in
  let s := negb (p mod 2 ^ (n - 1) =? 0)%Z in
  if r && (s || Z.odd q) then (q + 1)%Z else q.

(** The integer that [float(p)] stands for: [p] itself when it fits in
    53 bits, else [p] rounded to 53 significant bits. *)
Definition rounded (p : positive) : Z :=
  let d := Zpos (digits2_pos p) in
  if (d <=? 53)%Z then Zpos p
  else (round_shift (Zpos p) (d - 53) * 2 ^ (d - 53))%Z.

(** [x] is the binary64 of value [V]: the normal number with a 53-bit
    mantissa equal to [V], or infinity when [V] reaches [2^1024]. *)
Definition represents (x : spec_float) (V : Z) : Prop :=
  ((V < 2 ^ 1024)%Z
   /\ exists m e, x = S754_finite false m e
                  /\ Zpos (digits2_pos m) = 53%Z /\ (-52 <= e)%Z
                  /\ (Zpos m * 2 ^ (e + 52) = V * 2 ^ 52)%Z)
  \/ ((2 ^ 1024 <= V)%Z /\ x = S754_infinity false).

Definition digit_value (c : ascii) : Z := Z.of_N (code c) - 48.

Fixpoint int_of_digits_from (acc : Z) (s : string) : Z :=
  match s with
  | EmptyString => acc
  | String c s' => int_of_digits_from (10 * acc + digit_value c) s'
  end.

(** The integer a string of decimal digits denotes. *)
Definition int_of_digits (s : string) : Z := int_of_digits_from 0 s.

Definition is_digits (s : string) : bool :=
  negb (String.eqb s "") && all_chars is_digit s.

(** [float(s)] on the part of its grammar the program reaches: a
    non-empty string of decimal digits converts to the nearest binary64
    of the integer it denotes; the placeholder text, like every string
    with no numeric reading, raises [ValueError].  Signs, fractions and
    exponents, which [float] also reads, are not modelled. *)
Definition float_of_str (s : string) : result spec_float :=
  if is_digits s then ret (float_of_Z (int_of_digits s))
  else raise (ValueError ("could not convert string to float: '" +:+ s +:+ "'")).

Definition fdiv (x y : spec_float) : spec_float := SFdiv prec emax x y.
Definition fmul (x y : spec_float) : spec_float := SFmul prec emax x y.

(** [x >= y] on floats *)
Definition fge (x y : spec_float) : bool := SFleb y x.

(** A Python number as the program holds it: an [int] or a [float]. *)
Inductive num :=
| PInt (z : Z)
| PFloat (f : spec_float).

(** Round a non-negative rational [n / d] to the nearest integer, ties
    to even. *)
Definition round_half_even (n d : Z) : Z :=
  let q := (n / d)%Z in
  let r := (n mod d)%Z in
  match (2 * r ?= d)%Z with
  | Lt => q
  | Gt => (q + 1)%Z
  | Eq => if Z.even q then q else (q + 1)%Z
  end.

(** The number of tenths nearest to [m * 2^e] (ties to even). *)
Definition tenths (m : positive) (e : Z) : Z :=
  match e with
  | Zneg k => round_half_even (10 * Zpos m) (Z.pow_pos 2 k)
  | _ => (10 * Zpos m * 2 ^ e)%Z
  end.

Definition render_tenths (sign : bool) (t : Z) : string :=
  (if sign then "-" else "")
    +:+ str_of_Z (t / 10) +:+ "." +:+ str_of_Z (t mod 10).

(** [f"{x:.1f}"]: one digit after the point, the decimal nearest to the
    exact binary value. *)
Definition format_1f (x : num) : string :=
  match x with
  | PInt z => render_tenths (z <? 0)%Z (10 * Z.abs z)
  | PFloat (S754_zero s) => render_tenths s 0
  | PFloat (S754_finite s m e) => render_tenths s (tenths m e)
  | PFloat (S754_infinity s) => (if s then "-" else "") +:+ "inf"
  | PFloat S754_nan => "nan"
  end.

End Py.

Notation "'let*' x ':=' m 'in' k" := (Py.bind m (fun x => k))
  (at level 10, x name, m at level 100, k at level 200).

(** ** Regular expressions

    The fragment of Python's [re] the program uses: literals, the
    classes [\d] and [\s] under the greedy quantifiers [+] and [*],
    alternation, concatenation, and one capturing group that opens the
    pattern.  Matching is by backtracking: [rmatch r s] lists the ways
    [r] matches a prefix of [s], as (matched text, remaining text), in
    the order the engine tries them. *)
Module Re.

Inductive cls := Digit | Space.

Definition in_cls (k : cls) (c : ascii) : bool :=
  match k with
  | Digit => Py.is_digit c
  | Space => Py.is_space c
  end.

Inductive regex :=
| Lit (l : string)
| Star (k : cls)
| Plus (k : cls)
| Alt (r1 r2 : regex)
| Seq (r1 r2 : regex).

Definition cons_fst (c : ascii) (p : string * string) : string * string :=
  (String c (fst p), snd p).

(** Greedy [k*]: the longest run first, then shorter ones. *)
Fixpoint m_star (k : cls) (s : string) : list (string * string) :=
  match s with
  | EmptyString => [(EmptyString, EmptyString)]
  | String c s' =>
      if in_cls k c
      then map (cons_fst c) (m_star k s') ++ [(EmptyString, s)]
      else [(EmptyString, s)]
  end.

(** Greedy [k+]: one character of the class, then [k*]. *)
Definition m_plus (k : cls) (s : string) : list (string * string) :=
  match s with
  | EmptyString => []
  | String c s' =>
      if in_cls k c then map (cons_fst c) (m_star k s') else []
  end.

Fixpoint drop_prefix (p s : string) : option string :=
  match p, s with
  | EmptyString, _ => Some s
  | String a p', String b s' =>
      if Ascii.eqb a b then drop_prefix p' s' else None
  | String _ _, EmptyString => None
  end.

Definition m_lit (l s : string) : list (string * string) :=
  match drop_prefix l s with
  | Some rest => [(l, rest)]
  | None => []
  end.

Fixpoint rmatch (r : regex) (s : string) : list (string * string) :=
  match r with
  | Lit l => m_lit l s
  | Star k => m_star k s
  | Plus k => m_plus k s
  | Alt r1 r2 => rmatch r1 s ++ rmatch r2 s
  | Seq r1 r2 =>
      flat_map (fun p1 =>
                  map (fun p2 => (fst p1 +:+ fst p2, snd p2))
                      (rmatch r2 (snd p1)))
               (rmatch r1 s)
  end.

(** A pattern [(g)t]: the group [g], then the rest [t]. *)
Record pattern := Pattern { group1 : regex; rest : regex }.

(** The first way to match [(g)t] at the start of [s], if any: the
    text of group 1. *)
Definition match_here (p : pattern) (s : string) : option string :=
  head (flat_map (fun p1 =>
                    match rmatch (rest p) (snd p1) with
                    | [] => []
                    | _ :: _ => [fst p1]
                    end)
                 (rmatch (group1 p) s)).

(** [re.search(p, s)], reduced to what the program reads from the
    match object: [None] when there is no match, [Some (m.group(1))]
    for the leftmost match [m]. *)
Fixpoint search (p : pattern) (s : string) : option string :=
  match match_here p s with
  | Some g => Some g
  | None =>
      match s with
      | EmptyString => None
      | String _ s' => search p s'
      end
  end.

(** The words a regular expression denotes. *)
Fixpoint lang (r : regex) (w : string) : Prop :=
  match r with
  | Lit l => w = l
  | Star k => Py.all_chars (in_cls k) w = true
  | Plus k => w <> "" /\ Py.all_chars (in_cls k) w = true
  | Alt r1 r2 => lang r1 w \/ lang r2 w
  | Seq r1 r2 => exists w1 w2, w = w1 +:+ w2 /\ lang r1 w1 /\ lang r2 w2
  end.

End Re.


(** ** The query responder of [src/src/app.py] *)
Module App.

Abbreviation record := (gmap string string).

(** The [responses] table: each template with its [str.format] fields
    as arguments. *)
Definition responses_compliance (score issues : string) : string :=
  "Based on the analysis, the overall compliance score is " +:+ score
    +:+ "%. " +:+ issues +:+ " issues were found.".

Definition responses_insulation (design_thickness required_thickness : string) : string :=
  "The design specifies " +:+ design_thickness
    +:+ "mm insulation thickness, while regulations require minimum "
    +:+ required_thickness +:+ "mm.".

Definition responses_seismic (design_seismic required_seismic : string) : string :=
  "The design can withstand " +:+ design_seismic
    +:+ "g seismic events, while regulations require minimum "
    +:+ required_seismic +:+ "g.".

Definition responses_emergency (design_hours meets required_hours : string) : string :=
  "The emergency cooling system can operate for " +:+ design_hours
    +:+ " hours without external power, which " +:+ meets
    +:+ " the required " +:+ required_hours +:+ " hours.".

Definition responses_pumps (design_pumps required_pumps : string) : string :=
  "The containment spray system has " +:+ design_pumps
    +:+ " pumps, while regulations require minimum "
    +:+ required_pumps +:+ " pumps.".

Definition help_message : string :=
  "I can help you with questions about compliance scores, insulation thickness, seismic resistance, emergency power requirements, and containment pumps. Please ask a specific question about these topics.".

(** The local variables the scan of the batch assigns.  [re_bound]
    tells whether the statement [import re], which sits in the first
    branch of the scan, has been executed: [re] is a local name of the
    function, unbound until then. *)
Record locals := Locals {
  re_bound : bool;
  design_thickness : string;
  required_thickness : string;
  design_seismic : string;
  required_seismic : string;
  design_hours : string;
  required_hours : string;
  design_pumps : string;
  required_pumps : string
}.

Definition initial_locals : locals :=
  Locals false "N/A" "N/A" "N/A" "N/A" "N/A" "N/A" "N/A" "N/A".

Definition import_re (st : locals) : locals :=
  Locals true (design_thickness st) (required_thickness st)
         (design_seismic st) (required_seismic st)
         (design_hours st) (required_hours st)
         (design_pumps st) (required_pumps st).

Definition set_design_thickness (v : string) (st : locals) : locals :=
  Locals (re_bound st) v (required_thickness st)
         (design_seismic st) (required_seismic st)
         (design_hours st) (required_hours st)
         (design_pumps st) (required_pumps st).

Definition set_required_thickness (v : string) (st : locals) : locals :=
  Locals (re_bound st) (design_thickness st) v
         (design_seismic st) (required_seismic st)
         (design_hours st) (required_hours st)
         (design_pumps st) (required_pumps st).

Definition set_design_seismic (v : string) (st : locals) : locals :=
  Locals (re_bound st) (design_thickness st) (required_thickness st)
         v (required_seismic st)
         (design_hours st) (required_hours st)
         (design_pumps st) (required_pumps st).

Definition set_required_seismic (v : string) (st : locals) : locals :=
  Locals (re_bound st) (design_thickness st) (required_thickness st)
         (design_seismic st) v
         (design_hours st) (required_hours st)
         (design_pumps st) (required_pumps st).

Definition set_design_hours (v : string) (st : locals) : locals :=
  Locals (re_bound st) (design_thickness st) (required_thickness st)
         (design_seismic st) (required_seismic st)
         v (required_hours st)
         (design_pumps st) (required_pumps st).

Definition set_required_hours (v : string) (st : locals) : locals :=
  Locals (re_bound st) (design_thickness st) (required_thickness st)
         (design_seismic st) (required_seismic st)
         (design_hours st) v
         (design_pumps st) (required_pumps st).

Definition set_design_pumps (v : string) (st : locals) : locals :=
  Locals (re_bound st) (design_thickness st) (required_thickness st)
         (design_seismic st) (required_seismic st)
         (design_hours st) (required_hours st)
         v (required_pumps st).

Definition set_required_pumps (v : string) (st : locals) : locals :=
  Locals (re_bound st) (design_thickness st) (required_thickness st)
         (design_seismic st) (required_seismic st)
         (design_hours st) (required_hours st)
         (design_pumps st) v.

(** The four patterns of the scan. *)

(** [(\d+)\s*mm] *)
Definition thickness_pattern : Re.pattern :=
  Re.Pattern (Re.Plus Re.Digit) (Re.Seq (Re.Star Re.Space) (Re.Lit "mm")).

(** [(\d+\.\d+)g] *)
Definition seismic_pattern : Re.pattern :=
  Re.Pattern (Re.Seq (Re.Plus Re.Digit) (Re.Seq (Re.Lit ".") (Re.Plus Re.Digit)))
             (Re.Lit "g").

(** [(\d+)\s*hours] *)
Definition hours_pattern : Re.pattern :=
  Re.Pattern (Re.Plus Re.Digit) (Re.Seq (Re.Star Re.Space) (Re.Lit "hours")).

(** [(\d+)\s*(?:independent|separate)] *)
Definition pumps_pattern : Re.pattern :=
  Re.Pattern (Re.Plus Re.Digit)
             (Re.Seq (Re.Star Re.Space)
                     (Re.Alt (Re.Lit "independent") (Re.Lit "separate"))).

(** [re.search(p, s)] inside the function: reading the name [re]
    raises while it is unbound. *)
Definition re_search (st : locals) (p : Re.pattern) (s : string)
  : Py.result (option string) :=
  if re_bound st then Py.ret (Re.search p s)
  else Py.raise (Py.UnboundLocalError "re").

(** [m = re.search(p, s)], then [if m: x = m.group(1)], with the
    assignment to [x] given as [set]. *)
Definition search_into (p : Re.pattern) (s : string)
    (set : string -> locals -> locals) (st : locals) : Py.result locals :=
  let* m := re_search st p s in
  Py.ret match m with
         | Some g => set g st
         | None => st
         end.

(** [result.get('regulation_text', '').lower()] *)
Definition regulation_text_of (result : record) : string :=
  Py.lower (default "" (result !! "regulation_text")).

(** [result.get('design_text', '').lower()] *)
Definition design_text_lower_of (result : record) : string :=
  Py.lower (default "" (result !! "design_text")).

(** The body of [for result in compliance_results]. *)
Definition scan_result (st : locals) (result : record) : Py.result locals :=
  let regulation_text := regulation_text_of result in
  let design_text_lower := design_text_lower_of result in
  if Py.contains "insulation" regulation_text
     && Py.contains "thickness" regulation_text then
    let st := import_re st in
    let* st := search_into thickness_pattern regulation_text set_required_thickness st in
    search_into thickness_pattern design_text_lower set_design_thickness st
  else if Py.contains "seismic" regulation_text then
    let* st := search_into seismic_pattern regulation_text set_required_seismic st in
    search_into seismic_pattern design_text_lower set_design_seismic st
  else if Py.contains "hours" regulation_text
          && Py.contains "emergency" regulation_text then
    let* st := search_into hours_pattern regulation_text set_required_hours st in
    search_into hours_pattern design_text_lower set_design_hours st
  else if Py.contains "pumps" regulation_text
          && Py.contains "containment" regulation_text then
    let* st := search_into pumps_pattern regulation_text set_required_pumps st in
    search_into pumps_pattern design_text_lower set_design_pumps st
  else Py.ret st.

Fixpoint scan (st : locals) (compliance_results : list record) : Py.result locals :=
  match compliance_results with
  | [] => Py.ret st
  | result :: more =>
      let* st' := scan_result st result in
      scan st' more
  end.

(** [r.get('compliance_status') == 'Compliant'] *)
Definition is_compliant (r : record) : bool :=
  match r !! "compliance_status" with
  | Some status => String.eqb status "Compliant"
  | None => false
  end.

(** [sum(1 for r in compliance_results if ...)] *)
Definition count_compliant (compliance_results : list record) : Z :=
  fold_left (fun acc r => if is_compliant r then (acc + 1)%Z else acc)
            compliance_results 0%Z.

(** [(compliant_count / total_checks * 100) if total_checks > 0 else 0].
    Both operands of [/] are integers below [2^53], as the length of a
    list is, so the true division of the integers is the division of
    the floats they convert to. *)
Definition percentage (count total : Z) : Py.num :=
  if (0 <? total)%Z
  then Py.PFloat (Py.fmul (Py.fdiv (Py.float_of_Z count) (Py.float_of_Z total))
                          (Py.float_of_Z 100))
  else Py.PInt 0.

(** [any(word in question_lower for word in words)] *)
Definition any_word_in (words : list string) (question_lower : string) : bool :=
  existsb (fun word => Py.contains word question_lower) words.

(** The conditional expression that fills the [meets] field. *)
Definition meets_text (design_hours required_hours : string) : Py.result string :=
  if negb (String.eqb design_hours "N/A") then
    if negb (String.eqb required_hours "N/A") then
      let* d := Py.float_of_str design_hours in
      let* r := Py.float_of_str required_hours in
      Py.ret (if Py.fge d r then "meets" else "does not meet")
    else Py.ret "does not meet"
  else Py.ret "does not meet".

(** The part of the function before the question is looked at: the
    score, the issue count and the scanned values. *)
Definition analyse (compliance_results : list record)
  : Py.result (Py.num * Z * locals) :=
  match compliance_results with
  | [] => Py.ret (Py.PInt 0, 0%Z, initial_locals)
  | _ :: _ =>
      let total_checks := Z.of_nat (length compliance_results) in
      let compliant_count := count_compliant compliance_results in
      let compliance_score := percentage compliant_count total_checks in
      let issues_count := (total_checks - compliant_count)%Z in
      let* st := scan initial_locals compliance_results in
      Py.ret (compliance_score, issues_count, st)
  end.

(** The part that answers: the chain of keyword tests on the
    lower-cased question. *)
Definition respond (user_question : string)
    (compliance_score : Py.num) (issues_count : Z) (st : locals)
  : Py.result string :=
  let question_lower := Py.lower user_question in
  if any_word_in ["compliance"; "score"; "overall"; "result"] question_lower then
    Py.ret (responses_compliance (Py.format_1f compliance_score)
                                 (Py.str_of_Z issues_count))
  else if any_word_in ["insulation"; "thickness"] question_lower then
    Py.ret (responses_insulation (design_thickness st) (required_thickness st))
  else if any_word_in ["seismic"; "earthquake"] question_lower then
    Py.ret (responses_seismic (design_seismic st) (required_seismic st))
  else if any_word_in ["emergency"; "power"; "hours"] question_lower then
    let* meets := meets_text (design_hours st) (required_hours st) in
    Py.ret (responses_emergency (design_hours st) meets (required_hours st))
  else if any_word_in ["pumps"; "containment"] question_lower then
    Py.ret (responses_pumps (design_pumps st) (required_pumps st))
  else Py.ret help_message.

Definition chat_with_documents
    (user_question design_text regulations_text : string)
    (compliance_results : list record) : Py.result string :=
  let* a := analyse compliance_results in
  let '(compliance_score, issues_count, st) := a in
  respond user_question compliance_score issues_count st.

(** *** The scan read by category

    The definitions below name what the scan and the chain of keyword
    tests do, for the statements about them. *)

Inductive topic := Insulation | Seismic | Emergency | Pumps.

Inductive side := Design | Requirement.

Definition topic_eqb (a b : topic) : bool :=
  match a, b with
  | Insulation, Insulation | Seismic, Seismic
  | Emergency, Emergency | Pumps, Pumps => true
  | _, _ => false
  end.

(** The keyword tests on the regulation text, in the order of the
    [if]/[elif] chain of the scan. *)
Definition category_tests : list (topic * (string -> bool)) :=
  [ (Insulation, fun t => Py.contains "insulation" t && Py.contains "thickness" t);
    (Seismic, fun t => Py.contains "seismic" t);
    (Emergency, fun t => Py.contains "hours" t && Py.contains "emergency" t);
    (Pumps, fun t => Py.contains "pumps" t && Py.contains "containment" t) ].

(** The category of a record: the first test that holds. *)
Definition classify (r : record) : option topic :=
  option_map fst (List.find (fun tt => snd tt (regulation_text_of r)) category_tests).

Definition pattern_of (t : topic) : Re.pattern :=
  match t with
  | Insulation => thickness_pattern
  | Seismic => seismic_pattern
  | Emergency => hours_pattern
  | Pumps => pumps_pattern
  end.

Definition side_text (sd : side) (r : record) : string :=
  match sd with
  | Design => design_text_lower_of r
  | Requirement => regulation_text_of r
  end.

(** The value a record yields for a category and a side, if any. *)
Definition extract (t : topic) (sd : side) (r : record) : option string :=
  match classify r with
  | Some t' => if topic_eqb t t' then Re.search (pattern_of t) (side_text sd r) else None
  | None => None
  end.

(** The values found for a category and a side, in batch order. *)
Definition found (t : topic) (sd : side) (batch : list record) : list string :=
  omap (extract t sd) batch.

(** The first value found, as the specification words it. *)
Definition first_found (t : topic) (sd : side) (batch : list record) : string :=
  default "N/A" (head (found t sd batch)).

(** The last value found. *)
Definition last_found (t : topic) (sd : side) (batch : list record) : string :=
  default "N/A" (last (found t sd batch)).

Definition slot (t : topic) (sd : side) (st : locals) : string :=
  match t, sd with
  | Insulation, Design => design_thickness st
  | Insulation, Requirement => required_thickness st
  | Seismic, Design => design_seismic st
  | Seismic, Requirement => required_seismic st
  | Emergency, Design => design_hours st
  | Emergency, Requirement => required_hours st
  | Pumps, Design => design_pumps st
  | Pumps, Requirement => required_pumps st
  end.

(** The category of the first record of the batch that has one. *)
Definition first_category (batch : list record) : option topic :=
  head (omap classify batch).

(** [g] is a run of digits that stands in [s] right before one of the
    tokens, with nothing but white space in between. *)
Definition adjacent (g s : string) : Prop :=
  exists pre ws tok post,
    s = pre +:+ (g +:+ (ws +:+ (tok +:+ post)))
    /\ Py.is_digits g = true
    /\ Py.all_chars Py.is_space ws = true
    /\ (tok = "independent" \/ tok = "separate").

(** The float the program compares for a stored number of hours. *)
Definition hours_value (s : string) : spec_float :=
  Py.float_of_Z (Py.int_of_digits s).

Inductive question_kind :=
| AskCompliance
| AskTopic (t : topic)
| AskOther.

(** The topic of a question: the first keyword group with a word in
    the lower-cased question. *)
Definition classify_question (user_question : string) : question_kind :=
  let question_lower := Py.lower user_question in
  if any_word_in ["compliance"; "score"; "overall"; "result"] question_lower then AskCompliance
  else if any_word_in ["insulation"; "thickness"] question_lower then AskTopic Insulation
  else if any_word_in ["seismic"; "earthquake"] question_lower then AskTopic Seismic
  else if any_word_in ["emergency"; "power"; "hours"] question_lower then AskTopic Emergency
  else if any_word_in ["pumps"; "containment"] question_lower then AskTopic Pumps
  else AskOther.

(** [response] is the template of topic [t] filled with the design
    value [d] and the required value [r]. *)
Definition renders (t : topic) (d r response : string) : Prop :=
  match t with
  | Insulation => response = responses_insulation d r
  | Seismic => response = responses_seismic d r
  | Emergency => exists meets, response = responses_emergency d meets r
  | Pumps => response = responses_pumps d r
  end.

End App.

(** ** More Python primitives *)
Module PyMore.
Import Py.

(** [str(KeyError(key))] is the [repr] of the key. *)
Definition KeyError (key : string) : exn :=
  Exn "KeyError" ("'" +:+ key +:+ "'").

Definition ZeroDivisionError : exn :=
  Exn "ZeroDivisionError" "float division by zero".

(** [d[key]], with the entry of the key in [d] given. *)
Definition getitem {A} (key : string) (entry : option A) : result A :=
  match entry with
  | Some v => ret v
  | None => raise (KeyError key)
  end.

Definition is_zero (x : spec_float) : bool :=
  match x with
  | S754_zero _ => true
  | _ => false
  end.

(** [x / y] on floats: a zero divisor of either sign raises. *)
Definition truediv (x y : spec_float) : result spec_float :=
  if is_zero y then raise ZeroDivisionError else ret (fdiv x y).

(** The number of thousandths nearest to [m * 2^e] (ties to even). *)
Definition thousandths (m : positive) (e : Z) : Z :=
  match e with
  | Zneg k => round_half_even (1000 * Zpos m) (Z.pow_pos 2 k)
  | _ => (1000 * Zpos m * 2 ^ e)%Z
  end.

(** Three digits, with leading zeros. *)
Definition pad3 (s : string) : string :=
  match String.length s with
  | 1%nat => "00" +:+ s
  | 2%nat => "0" +:+ s
  | _ => s
  end.

Definition render_thousandths (sign : bool) (t : Z) : string :=
  (if sign then "-" else "")
    +:+ str_of_Z (t / 1000) +:+ "." +:+ pad3 (str_of_Z (t mod 1000)).

(** [f"{x:.3f}"] *)
Definition format_3f (x : num) : string :=
  match x with
  | PInt z => render_thousandths (z <? 0)%Z (1000 * Z.abs z)
  | PFloat (S754_zero s) => render_thousandths s 0
  | PFloat (S754_finite s m e) => render_thousandths s (thousandths m e)
  | PFloat (S754_infinity s) => (if s then "-" else "") +:+ "inf"
  | PFloat S754_nan => "nan"
  end.

End PyMore.

(** ** The benchmark harness of [src/src/benchmark.py]

    The clock is not part of the model: the elapsed time of a run is an
    argument of [run_compliance_benchmark], and the [timestamp] and
    [processing_time] entries, which do not bear on the scoring, are
    left out of the records. *)
Module Benchmark.

(** An entry of [self.test_cases]. *)
Module TestCase.
Record t := Make {
  id : string;
  name : string;
  design : string;
  regulation : string;
  expected_status : string;
  expected_reasoning : string;
  category : string
}.
End TestCase.

(** An entry of [results["test_cases"]]: a dict whose keys depend on
    whether the check returned or raised; a key the dict lacks is
    [None]. *)
Module CaseResult.
Record t := Make {
  test_case_id : string;
  test_case_name : string;
  category : option string;
  expected_status : option string;
  actual_status : option string;
  expected_reasoning : option string;
  actual_reasoning : option string;
  is_correct : option bool;
  error : option string;
  raw_result : option (gmap string string)
}.
End CaseResult.

Definition _load_test_cases : list TestCase.t :=
  [ TestCase.Make "TC001" "Insulation Thickness Compliance"
      "The cooling system connections are insulated with standard thermal insulation with a thickness of 45mm."
      "All cooling system connections must have standard thermal insulation with a minimum thickness of 50 mm."
      "Non-Compliant" "thickness less than required" "material_specifications";
    TestCase.Make "TC002" "Seismic Resistance Compliance"
      "All cooling system components are designed to withstand seismic events up to 0.25g intensity."
      "Seismic resistance with a minimum intensity of 0.35g is mandatory for all cooling system components."
      "Non-Compliant" "seismic resistance below requirement" "safety_requirements";
    TestCase.Make "TC003" "Emergency Power Duration Compliance"
      "The emergency cooling system can operate without external power for 96 hours."
      "The emergency cooling system must be able to operate for at least 72 hours without an external power source in case of power failure."
      "Compliant" "duration exceeds requirement" "emergency_systems";
    TestCase.Make "TC004" "Containment Pump Count Compliance"
      "Containment spray system consists of two independent pumps with separate power supplies."
      "The containment spray system must consist of at least three independent pumps."
      "Non-Compliant" "insufficient pump count" "safety_systems";
    TestCase.Make "TC005" "Pipe Wall Thickness Compliance"
      "The pipe wall thickness is 38 mm."
      "The wall thickness of the main pipes must be calculated according to pressure and temperature and must not be less than 40 mm."
      "Non-Compliant" "wall thickness below minimum" "structural_requirements";
    TestCase.Make "TC006" "Material Specification Compliance"
      "Primary cooling system pipes are made of 316L stainless steel."
      "Primary cooling system pipes must be made of 300-series stainless steel or equivalent resistant alloys."
      "Compliant" "material meets specification" "material_specifications" ].

(** Per-category counters of [_calculate_summary_metrics]; the
    [accuracy] key is added by a second loop. *)
Record category_stats := Stats {
  total : Z;
  correct : Z;
  accuracy : option Py.num
}.

Record summary := Summary {
  total_test_cases : Z;
  correct_predictions : Z;
  overall_accuracy : Py.num;
  category_performance : gmap string category_stats;
  status_distribution : gmap string Z
}.

(** [case.get("is_correct", False)] *)
Definition get_is_correct (case : CaseResult.t) : bool :=
  default false (CaseResult.is_correct case).

(** [(correct / total * 100) if total > 0 else 0], on counts below
    [2^53] as in [App.percentage]. *)
Definition accuracy_of (correct total : Z) : Py.num :=
  if (0 <? total)%Z
  then Py.PFloat (Py.fmul (Py.fdiv (Py.float_of_Z correct) (Py.float_of_Z total))
                          (Py.float_of_Z 100))
  else Py.PInt 0.

(** The body of the loop that fills [categories]. *)
Definition count_case (categories : gmap string category_stats)
    (case : CaseResult.t) : gmap string category_stats :=
  let category := default "unknown" (CaseResult.category case) in
  let categories :=
    match categories !! category with
    | None => <[category := Stats 0 0 None]> categories
    | Some _ => categories
    end in
  let categories :=
    alter (fun s => Stats (total s + 1) (correct s) (accuracy s))
          category categories in
  if get_is_correct case
  then alter (fun s => Stats (total s) (correct s + 1) (accuracy s))
             category categories
  else categories.

(** The body of the loop that adds the [accuracy] of each category. *)
Definition with_accuracy (s : category_stats) : category_stats :=
  Stats (total s) (correct s) (Some (accuracy_of (correct s) (total s))).

(** The body of the loop that fills [status_counts]. *)
Definition count_status (status_counts : gmap string Z)
    (case : CaseResult.t) : gmap string Z :=
  let status := default "Unknown" (CaseResult.actual_status case) in
  <[status := (default 0%Z (status_counts !! status) + 1)%Z]> status_counts.

Definition _calculate_summary_metrics (test_cases : list CaseResult.t) : summary :=
  let total_cases := Z.of_nat (length test_cases) in
  let correct_cases :=
    fold_left (fun acc case => if get_is_correct case then (acc + 1)%Z else acc)
              test_cases 0%Z in
  let accuracy := accuracy_of correct_cases total_cases in
  let categories := fold_left count_case test_cases ∅ in
  let categories := with_accuracy <$> categories in
  let status_counts := fold_left count_status test_cases ∅ in
  Summary total_cases correct_cases accuracy categories status_counts.

(** The [performance] entry of [run_compliance_benchmark], from the
    elapsed time the clock gave and the number of test cases. *)
Record performance := Performance {
  total_processing_time : spec_float;
  average_processing_time : spec_float;
  test_cases_per_second : spec_float
}.

(** [total_time / len(self.test_cases)], then
    [len(self.test_cases) / total_time]. *)
Definition measure (total_time : spec_float) (n_test_cases : Z)
  : Py.result performance :=
  let* average := PyMore.truediv total_time (Py.float_of_Z n_test_cases) in
  let* rate := PyMore.truediv (Py.float_of_Z n_test_cases) total_time in
  Py.ret (Performance total_time average rate).

Section Harness.

(** [compliance_checker.check_compliance(design_text, regulation_text)] *)
Variable check_compliance : string -> string -> Py.result (gmap string string).

(** The body of [for test_case in self.test_cases], with its
    [try]/[except Exception]. *)
Definition run_case (test_case : TestCase.t) : CaseResult.t :=
  match check_compliance (TestCase.design test_case)
                         (TestCase.regulation test_case) with
  | inr result =>
      let actual_status := default "Unknown" (result !! "compliance_status") in
      let actual_reasoning := default "" (result !! "reasoning") in
      let is_correct :=
        String.eqb actual_status (TestCase.expected_status test_case) in
      CaseResult.Make
        (TestCase.id test_case) (TestCase.name test_case)
        (Some (TestCase.category test_case))
        (Some (TestCase.expected_status test_case))
        (Some actual_status)
        (Some (TestCase.expected_reasoning test_case))
        (Some actual_reasoning)
        (Some is_correct) None (Some result)
  | inl e =>
      CaseResult.Make
        (TestCase.id test_case) (TestCase.name test_case)
        (Some (TestCase.category test_case))
        None None None None
        (Some false) (Some (Py.str_of_exn e)) None
  end.

(** [run_compliance_benchmark]: the loop over [self.test_cases], then
    the [summary] entry, then the [performance] entry, whose divisions
    may raise.  [total_time] is what [time.time() - start_time] gave;
    the value returned holds the entries [test_cases], [summary] and
    [performance] of [results]. *)
Definition run_compliance_benchmark
    (test_cases : list TestCase.t) (total_time : spec_float)
  : Py.result (list CaseResult.t * summary * performance) :=
  let cases := map run_case test_cases in
  let summary := _calculate_summary_metrics cases in
  let* performance := measure total_time (Z.of_nat (length test_cases)) in
  Py.ret (cases, summary, performance).

End Harness.

(** *** Counting, for the statements about the summary *)

(** [case.get("category", "unknown")] *)
Definition category_of (case : CaseResult.t) : string :=
  default "unknown" (CaseResult.category case).

Definition in_category (c : string) (case : CaseResult.t) : bool :=
  String.eqb (category_of case) c.

(** The number of elements of a list that pass a test. *)
Definition count {A} (p : A -> bool) (l : list A) : Z :=
  Z.of_nat (length (List.filter p l)).

(** The counters of a category before its first case. *)
Definition stats_or_new (o : option category_stats) : category_stats :=
  default (Stats 0 0 None) o.

(** The counters of a category after [n] more cases, [k] of them
    correct. *)
Definition add_counts (o : option category_stats) (n k : Z)
  : option category_stats :=
  if (n =? 0)%Z then o
  else Some (Stats (total (stats_or_new o) + n)
                   (correct (stats_or_new o) + k)
                   (accuracy (stats_or_new o))).

(** A checker that finds every design non-compliant, and one that
    raises on every call. *)
Definition always_non_compliant (design_text regulation_text : string)
  : Py.result (gmap string string) :=
  Py.ret (<["compliance_status" := "Non-Compliant"]>
            (<["reasoning" := "design value is below the required minimum"]> ∅)).

Definition always_raises (design_text regulation_text : string)
  : Py.result (gmap string string) :=
  Py.raise (Py.ValueError "Design text and regulation text must be provided").

End Benchmark.

(** ** The comparator of the rule engine *)
Module Comparator.

(** Modelled from the spec: the module [compliance_checker] with the
    class [ComplianceChecker] is imported by [app.py], [benchmark.py]
    and the tests but is not among the sources.  The definitions below
    follow the data model (section 3) and the comparator contract
    (section 4.3) of the specification; the reasoning text that the
    contract returns next to the verdict is not modelled. *)
Inductive Category :=
| InsulationThickness
| SeismicResistance
| EmergencyPowerDuration
| ContainmentPumpCount
| MaterialGrade
| Unrecognized (name : string).

Inductive Verdict := Compliant | NonCompliant | Unknown.

(** Modelled from the spec: the [value] of an ExtractedClaim is a
    parsed number, a normalized grade family (on the requirement side
    of the material category, the set of accepted families), or
    absent. *)
Inductive Value :=
| Absent
| Number (q : Q)
| Grade (family : string)
| GradeSet (families : list string).

Record ExtractedClaim := Claim {
  category : Category;
  raw_text : string;
  value : Value;
  unit : string
}.

(** Modelled from the spec: the four categories whose claims are
    numbers (section 4.3, first rule). *)
Definition numeric (cat : Category) : bool :=
  match cat with
  | InsulationThickness | SeismicResistance
  | EmergencyPowerDuration | ContainmentPumpCount => true
  | _ => false
  end.

Definition member (g : string) (families : list string) : bool :=
  existsb (String.eqb g) families.

(** Modelled from the spec: the comparison rule per category.  The
    four numeric categories are meets-or-exceeds; the material category
    is membership of the design's family in the accepted set; an absent
    claim on either side, a claim of the wrong shape and an
    unrecognized category give [Unknown]. *)
Definition compare (cat : Category) (design_claim requirement_claim : ExtractedClaim)
  : Verdict :=
  match cat with
  | Unrecognized _ => Unknown
  | MaterialGrade =>
      match value design_claim, value requirement_claim with
      | Grade family, GradeSet accepted =>
          if member family accepted then Compliant else NonCompliant
      | _, _ => Unknown
      end
  | InsulationThickness | SeismicResistance
  | EmergencyPowerDuration | ContainmentPumpCount =>
      match value design_claim, value requirement_claim with
      | Number d, Number r =>
          if Qle_bool r d then Compliant else NonCompliant
      | _, _ => Unknown
      end
  end.

End Comparator.

(** ** Sample batches *)
Module Samples.

(** A result record with the three keys the responder reads. *)
Definition record_of (regulation_text design_text compliance_status : string)
  : App.record :=
  <["regulation_text" := regulation_text]>
    (<["design_text" := design_text]>
       (<["compliance_status" := compliance_status]> ∅)).

Definition insulation_50_45 : App.record :=
  record_of
    "All cooling system connections must have standard thermal insulation with a minimum thickness of 50 mm."
    "The cooling system connections are insulated with standard thermal insulation with a thickness of 45mm."
    "Non-Compliant".

Definition insulation_60_55 : App.record :=
  record_of
    "Pipe insulation must have a minimum thickness of 60 mm."
    "The pipes carry insulation with a thickness of 55mm."
    "Non-Compliant".

Definition seismic_035_025 : App.record :=
  record_of
    "Seismic resistance with a minimum intensity of 0.35g is mandatory for all cooling system components."
    "All cooling system components are designed to withstand seismic events up to 0.25g intensity."
    "Non-Compliant".

Definition emergency_72_96 : App.record :=
  record_of
    "The emergency cooling system must be able to operate for at least 72 hours without an external power source in case of power failure."
    "The emergency cooling system can operate without external power for 96 hours."
    "Compliant".

Definition emergency_72_72 : App.record :=
  record_of
    "The emergency cooling system must operate for at least 72 hours."
    "The emergency cooling system can operate for 72 hours."
    "Compliant".

Definition emergency_72_8 : App.record :=
  record_of
    "The emergency cooling system must operate for at least 72 hours."
    "The emergency cooling system can operate for 8 hours."
    "Non-Compliant".

Definition pumps_words : App.record :=
  record_of
    "The containment spray system must consist of at least three independent pumps."
    "Containment spray system consists of two independent pumps with separate power supplies."
    "Non-Compliant".

Definition pumps_3_2 : App.record :=
  record_of
    "The containment spray system must consist of at least 3 independent pumps."
    "Containment spray system consists of 2 separate pumps."
    "Non-Compliant".

Definition pumps_not_adjacent : App.record :=
  record_of
    "The containment spray system must consist of at least 3 pumps, all independent."
    "Containment spray system consists of 2 pumps."
    "Non-Compliant".

Definition seismic_and_emergency : App.record :=
  record_of
    "Seismic resistance of 0.35g is mandatory and the emergency supply must last 72 hours."
    "Withstands 0.25g; emergency supply lasts 96 hours."
    "Non-Compliant".

End Samples.

(** ** The report rows of [src/src/benchmark.py] *)
Module Report.
Import Py PyMore Benchmark.

Definition nl : string := String "010"%char EmptyString.
Definition dquote : string := String "034"%char EmptyString.

Fixpoint indent (n : nat) : string :=
  match n with
  | O => EmptyString
  | S n' => String " "%char (indent n')
  end.

(** The f-string of one table row, with its seven fields given. *)
Definition row_text
    (test_case_name category expected_status actual_status
       status_class status_text processing_time : string) : string :=
  nl +:+ indent 20 +:+ "<tr>"
    +:+ nl +:+ indent 24 +:+ "<td>" +:+ test_case_name +:+ "</td>"
    +:+ nl +:+ indent 24 +:+ "<td>" +:+ category +:+ "</td>"
    +:+ nl +:+ indent 24 +:+ "<td>" +:+ expected_status +:+ "</td>"
    +:+ nl +:+ indent 24 +:+ "<td>" +:+ actual_status +:+ "</td>"
    +:+ nl +:+ indent 24 +:+ "<td class=" +:+ dquote +:+ status_class +:+ dquote
    +:+ ">" +:+ status_text +:+ "</td>"
    +:+ nl +:+ indent 24 +:+ "<td>" +:+ processing_time +:+ "</td>"
    +:+ nl +:+ indent 20 +:+ "</tr>"
    +:+ nl +:+ indent 12.

(** The body of [for case in compliance_results['test_cases']] in
    [_generate_html_report]: the row of a case, whose
    [processing_time] entry, if it has one, is given beside it.  The
    fields are evaluated from left to right, and a subscript of a
    missing key raises. *)
Definition render_row (case : CaseResult.t) (processing_time : option num)
  : result string :=
  let status_class := if get_is_correct case then "pass" else "fail" in
  let status_text := if get_is_correct case then "PASS" else "FAIL" in
  let* category := getitem "category" (CaseResult.category case) in
  let* expected_status :=
    getitem "expected_status" (CaseResult.expected_status case) in
  let* actual_status := getitem "actual_status" (CaseResult.actual_status case) in
  ret (row_text (CaseResult.test_case_name case) category expected_status
                actual_status status_class status_text
                (format_3f (default (PInt 0) processing_time))).

(** The loop: [html += row] for every case in order. *)
Fixpoint render_rows (html : string)
    (cases : list (CaseResult.t * option num)) : result string :=
  match cases with
  | [] => ret html
  | (case, processing_time) :: more =>
      let* row := render_row case processing_time in
      render_rows (html +:+ row) more
  end.

End Report.

(** ** More names for the statements about the scan *)
Module AppMore.
Import Py App.

Fixpoint ends_with_digit (s : string) : bool :=
  match s with
  | EmptyString => false
  | String c s' =>
      match s' with
      | EmptyString => is_digit c
      | String _ _ => ends_with_digit s'
      end
  end.

Definition starts_with_digit (s : string) : bool :=
  match s with
  | EmptyString => false
  | String c _ => is_digit c
  end.

(** [g] is a whole number of [s], written right before [unit] with
    nothing but white space in between: the digit before [g], if any
    character stands there, is not a digit. *)
Definition number_before (unit g s : string) : Prop :=
  exists pre ws post,
    s = pre +:+ (g +:+ (ws +:+ (unit +:+ post)))
    /\ is_digits g = true
    /\ all_chars is_space ws = true
    /\ ends_with_digit pre = false.

(** [g] is a decimal number with digits on both sides of its point,
    written in [s] right before the letter g. *)
Definition decimal_before_g (g s : string) : Prop :=
  exists pre a b post,
    s = pre +:+ (g +:+ ("g" +:+ post))
    /\ g = a +:+ ("." +:+ b)
    /\ is_digits a = true
    /\ is_digits b = true.

(** A record with its two texts replaced by their lower-case forms. *)
Definition lowered (r : record) : record :=
  <["regulation_text" := regulation_text_of r]>
    (<["design_text" := design_text_lower_of r]> r).

End AppMore.

(** ** More sample records *)
Module SamplesMore.

Definition insulation_50_55 : App.record :=
  Samples.record_of
    "All cooling system connections must have standard thermal insulation with a minimum thickness of 50 mm."
    "The cooling system connections are insulated with standard thermal insulation with a thickness of 55mm."
    "Compliant".

(** A record on a subject outside the four categories. *)
Definition material_grade : App.record :=
  Samples.record_of
    "Primary cooling system pipes must be made of 300-series stainless steel or equivalent resistant alloys."
    "Primary cooling system pipes are made of 316L stainless steel."
    "Compliant".

End SamplesMore.

(** ** Sums over the tables of the summary *)
Module Tally.

(** The sum of [g] over the values of a table. *)
Definition sum_values {A} (g : A -> Z) (m : gmap string A) : Z :=
  map_fold (fun _ x acc => (g x + acc)%Z) 0%Z m.

(** [case.get("actual_status", "Unknown")] *)
Definition status_of (case : Benchmark.CaseResult.t) : string :=
  default "Unknown" (Benchmark.CaseResult.actual_status case).

End Tally.

(** * Properties *)

(** ** Strings and regular expressions *)
Module ReFacts.
Import Py Re.
#[local] Arguments String.append !_ _ / : simpl nomatch.

Lemma append_nil_r (s : string) : s +:+ "" = s.
Proof. induction s as [|c s IH]; simpl; [reflexivity | now rewrite IH]. Qed.

Lemma append_assoc (a b c : string) : (a +:+ b) +:+ c = a +:+ (b +:+ c).
Proof. induction a as [|x a IH]; simpl; [reflexivity | now rewrite IH]. Qed.

Lemma all_chars_app (p : ascii -> bool) (a b : string) :
  all_chars p (a +:+ b) = all_chars p a && all_chars p b.
Proof.
  induction a as [|x a IH]; simpl; [reflexivity|].
  rewrite IH. now rewrite andb_assoc.
Qed.

Lemma drop_prefix_sound (l s rest : string) :
  drop_prefix l s = Some rest -> s = l +:+ rest.
Proof.
  revert s; induction l as [|a l IH]; intros s H; simpl in *.
  - congruence.
  - destruct s as [|b s]; [discriminate|].
    destruct (Ascii.eqb_spec a b) as [->|]; [|discriminate].
    now rewrite (IH _ H).
Qed.

Lemma drop_prefix_complete (l rest : string) :
  drop_prefix l (l +:+ rest) = Some rest.
Proof.
  induction l as [|a l IH]; simpl; [reflexivity|].
  now rewrite Ascii.eqb_refl.
Qed.

Lemma m_star_sound (k : cls) (s w rest : string) :
  In (w, rest) (m_star k s) ->
  s = w +:+ rest /\ all_chars (in_cls k) w = true.
Proof.
  revert w rest; induction s as [|c s IH]; intros w rest H; simpl in H.
  - destruct H as [H|[]]. now inversion H.
  - destruct (in_cls k c) eqn:Hc.
    + apply in_app_iff in H as [H|[H|[]]].
      * apply in_map_iff in H as [[w' r'] [E H]].
        unfold cons_fst in E; simpl in E; inversion E; subst.
        destruct (IH _ _ H) as [-> Hall]. simpl. now rewrite Hc.
      * now inversion H.
    + destruct H as [H|[]]. now inversion H.
Qed.

Lemma m_plus_sound (k : cls) (s w rest : string) :
  In (w, rest) (m_plus k s) ->
  s = w +:+ rest /\ w <> "" /\ all_chars (in_cls k) w = true.
Proof.
  destruct s as [|c s]; simpl; [intros []|].
  destruct (in_cls k c) eqn:Hc; [|intros []].
  intros H. apply in_map_iff in H as [[w' r'] [E H]].
  unfold cons_fst in E; simpl in E; inversion E; subst.
  destruct (m_star_sound _ _ _ _ H) as [-> Hall].
  simpl. rewrite Hc. repeat split; [discriminate | exact Hall].
Qed.

(** Every way the matcher reports is a split of the text into a word
    of the expression and the rest. *)
Lemma rmatch_sound (r : regex) (s w rest : string) :
  In (w, rest) (rmatch r s) -> s = w +:+ rest /\ lang r w.
Proof.
  revert s w rest; induction r as [l|k|k|r1 IH1 r2 IH2|r1 IH1 r2 IH2];
    intros s w rest H; simpl in *.
  - unfold m_lit in H. destruct (drop_prefix l s) eqn:E; [|destruct H].
    destruct H as [H|[]]; inversion H; subst.
    split; [now apply drop_prefix_sound | reflexivity].
  - now apply m_star_sound.
  - now apply m_plus_sound.
  - apply in_app_iff in H as [H|H]; [destruct (IH1 _ _ _ H) | destruct (IH2 _ _ _ H)];
      auto.
  - apply in_flat_map in H as [[w1 s1] [H1 H]].
    apply in_map_iff in H as [[w2 s2] [E H2]]. simpl in *.
    inversion E; subst.
    destruct (IH1 _ _ _ H1) as [-> L1].
    destruct (IH2 _ _ _ H2) as [-> L2].
    split; [now rewrite append_assoc | eauto].
Qed.

Lemma head_In {A} (l : list A) (x : A) : head l = Some x -> In x l.
Proof. destruct l; simpl; [discriminate | intros [= ->]; now left]. Qed.

Lemma match_here_sound (p : pattern) (s g : string) :
  match_here p s = Some g ->
  exists t post, s = g +:+ (t +:+ post) /\ lang (group1 p) g /\ lang (rest p) t.
Proof.
  unfold match_here. intros H. apply head_In in H.
  apply in_flat_map in H as [[w1 s1] [H1 H]]. simpl in H.
  destruct (rmatch (rest p) s1) as [|[t post] l] eqn:E; [destruct H|].
  destruct H as [->|[]].
  destruct (rmatch_sound _ _ _ _ H1) as [-> L1].
  assert (H2 : In (t, post) (rmatch (rest p) s1)) by (rewrite E; now left).
  destruct (rmatch_sound _ _ _ _ H2) as [-> L2].
  eauto.
Qed.

(** What [re.search] returns as group 1 stands in the text, followed
    by a word of the rest of the pattern. *)
Lemma search_sound (p : pattern) (s g : string) :
  search p s = Some g ->
  exists pre t post,
    s = pre +:+ (g +:+ (t +:+ post)) /\ lang (group1 p) g /\ lang (rest p) t.
Proof.
  induction s as [|c s IH]; simpl.
  - destruct (match_here p "") eqn:E; [|discriminate].
    intros [= ->]. destruct (match_here_sound _ _ _ E) as (t & post & ? & ? & ?).
    exists "", t, post. auto.
  - destruct (match_here p (String c s)) eqn:E.
    + intros [= ->]. destruct (match_here_sound _ _ _ E) as (t & post & ? & ? & ?).
      exists "", t, post. auto.
    + intros H. destruct (IH H) as (pre & t & post & -> & ? & ?).
      exists (String c pre), t, post. auto.
Qed.

(** *** Completeness of the matcher *)

Lemma m_star_nil (k : cls) (s : string) : In ("", s) (m_star k s).
Proof.
  destruct s as [|c s]; simpl; [now left|].
  destruct (in_cls k c); [apply in_app_iff; right|]; now left.
Qed.

Lemma m_star_complete (k : cls) (w rest : string) :
  all_chars (in_cls k) w = true -> In (w, rest) (m_star k (w +:+ rest)).
Proof.
  induction w as [|c w IH]; simpl; intros H.
  - apply m_star_nil.
  - apply andb_prop in H as [Hc Hw]. rewrite Hc.
    apply in_app_iff; left. apply in_map_iff.
    exists (w, rest). split; [reflexivity | now apply IH].
Qed.

Lemma m_plus_complete (k : cls) (w rest : string) :
  w <> "" -> all_chars (in_cls k) w = true -> In (w, rest) (m_plus k (w +:+ rest)).
Proof.
  destruct w as [|c w]; [congruence|]. simpl. intros _ H.
  apply andb_prop in H as [Hc Hw]. rewrite Hc.
  apply in_map_iff. exists (w, rest). split; [reflexivity|].
  now apply m_star_complete.
Qed.

(** Every split of the text into a word of the expression and a rest
    is among the ways the matcher reports. *)
Lemma rmatch_complete (r : regex) (w rest : string) :
  lang r w -> In (w, rest) (rmatch r (w +:+ rest)).
Proof.
  revert w rest; induction r as [l|k|k|r1 IH1 r2 IH2|r1 IH1 r2 IH2];
    intros w rest H; simpl in *.
  - subst w. unfold m_lit. rewrite drop_prefix_complete. now left.
  - now apply m_star_complete.
  - destruct H. now apply m_plus_complete.
  - apply in_app_iff. destruct H; [left | right]; auto.
  - destruct H as (w1 & w2 & -> & L1 & L2).
    apply in_flat_map. exists (w1, w2 +:+ rest). split.
    + rewrite append_assoc. now apply IH1.
    + apply in_map_iff. exists (w2, rest). split; [reflexivity|].
      now apply IH2.
Qed.

Lemma match_here_complete (p : pattern) (g t post : string) :
  lang (group1 p) g -> lang (rest p) t ->
  exists g', match_here p (g +:+ (t +:+ post)) = Some g'.
Proof.
  intros Lg Lt. unfold match_here.
  match goal with |- context [head ?l] => assert (I : In g l) end.
  { apply in_flat_map. exists (g, t +:+ post). split.
    - now apply rmatch_complete.
    - simpl. pose proof (rmatch_complete (rest p) t post Lt) as I.
      destruct (rmatch (rest p) (t +:+ post)); [destruct I | now left]. }
  match goal with |- context [head ?l] => destruct l as [|g' l'] end;
    [destruct I | simpl; eauto].
Qed.

(** [re.search] finds a match whenever the text holds a word of the
    group followed by a word of the rest of the pattern. *)
Lemma search_complete (p : pattern) (pre g t post : string) :
  lang (group1 p) g -> lang (rest p) t ->
  exists g', search p (pre +:+ (g +:+ (t +:+ post))) = Some g'.
Proof.
  intros Lg Lt. induction pre as [|c pre IH]; simpl.
  - destruct (match_here_complete p g t post Lg Lt) as (g' & E).
    destruct (g +:+ (t +:+ post)); simpl; rewrite E; eauto.
  - destruct (match_here p (String c (pre +:+ (g +:+ (t +:+ post))))); eauto.
Qed.

End ReFacts.

(** ** The scan of the batch *)
Module ScanFacts.
Import Py Re App.

Lemma bind_inr {A B} (m : result A) (k : A -> result B) (b : B) :
  bind m k = inr b -> exists a, m = inr a /\ k a = inr b.
Proof. destruct m as [e|a]; simpl; [discriminate | eauto]. Qed.

Lemma search_into_bound p s set st :
  re_bound st = true ->
  search_into p s set st
  = inr match Re.search p s with Some g => set g st | None => st end.
Proof. intros H. unfold search_into, re_search. now rewrite H. Qed.

Lemma search_into_unbound p s set st :
  re_bound st = false ->
  search_into p s set st = inl (UnboundLocalError "re").
Proof. intros H. unfold search_into, re_search. now rewrite H. Qed.

(** The four keyword tests decide [classify] in their order. *)
Lemma classify_cases (r : record) :
  let t := regulation_text_of r in
  classify r =
    if contains "insulation" t && contains "thickness" t then Some Insulation
    else if contains "seismic" t then Some Seismic
    else if contains "hours" t && contains "emergency" t then Some Emergency
    else if contains "pumps" t && contains "containment" t then Some Pumps
    else None.
Proof.
  unfold classify, category_tests; simpl.
  repeat match goal with |- context [if ?b then _ else _] => destruct b; simpl end;
    reflexivity.
Qed.

Ltac split_tests :=
  repeat match goal with
         | |- context [if ?b then _ else _] =>
             let E := fresh "E" in destruct b eqn:E; simpl
         | |- context [match Re.search ?p ?s with _ => _ end] =>
             let E := fresh "E" in destruct (Re.search p s) eqn:E; simpl
         end.

(** One round of the loop, when it does not raise: every slot keeps
    its value unless the record yields one for it. *)
Lemma scan_result_slot (st st' : locals) (r : record) (t : topic) (sd : side) :
  scan_result st r = inr st' ->
  slot t sd st' = default (slot t sd st) (extract t sd r).
Proof.
  unfold extract. rewrite classify_cases. unfold scan_result. simpl.
  destruct (contains "insulation" (regulation_text_of r)
            && contains "thickness" (regulation_text_of r)) eqn:E1.
  { rewrite search_into_bound
      by (destruct (Re.search thickness_pattern (regulation_text_of r)); reflexivity).
    intros [= <-]. destruct t, sd; simpl; split_tests; reflexivity. }
  destruct (contains "seismic" (regulation_text_of r)) eqn:E2.
  { destruct (re_bound st) eqn:B;
      [|rewrite search_into_unbound by assumption; discriminate].
    rewrite search_into_bound by assumption. simpl.
    rewrite search_into_bound
      by (destruct (Re.search seismic_pattern (regulation_text_of r)); assumption).
    intros [= <-]. destruct t, sd; simpl; split_tests; reflexivity. }
  destruct (contains "hours" (regulation_text_of r)
            && contains "emergency" (regulation_text_of r)) eqn:E3.
  { destruct (re_bound st) eqn:B;
      [|rewrite search_into_unbound by assumption; discriminate].
    rewrite search_into_bound by assumption. simpl.
    rewrite search_into_bound
      by (destruct (Re.search hours_pattern (regulation_text_of r)); assumption).
    intros [= <-]. destruct t, sd; simpl; split_tests; reflexivity. }
  destruct (contains "pumps" (regulation_text_of r)
            && contains "containment" (regulation_text_of r)) eqn:E4.
  { destruct (re_bound st) eqn:B;
      [|rewrite search_into_unbound by assumption; discriminate].
    rewrite search_into_bound by assumption. simpl.
    rewrite search_into_bound
      by (destruct (Re.search pumps_pattern (regulation_text_of r)); assumption).
    intros [= <-]. destruct t, sd; simpl; split_tests; reflexivity. }
  intros [= <-]. destruct t, sd; reflexivity.
Qed.

Lemma last_cons_default {A} (x : A) (l : list A) (d : A) :
  default d (last (x :: l)) = default x (last l).
Proof.
  revert x d; induction l as [|y l IH]; intros x d; [reflexivity|].
  change (last (x :: y :: l)) with (last (y :: l)). now rewrite !IH.
Qed.

(** The scan, when it does not raise: every slot holds the last value
    found for it, or what it held before when none was found. *)
Lemma scan_slot (batch : list record) (st st' : locals) (t : topic) (sd : side) :
  scan st batch = inr st' ->
  slot t sd st' = default (slot t sd st) (last (found t sd batch)).
Proof.
  revert st; induction batch as [|r more IH]; intros st H; simpl in H.
  - now inversion H.
  - apply bind_inr in H as (st1 & H1 & H2).
    rewrite (IH _ H2), (scan_result_slot _ _ _ t sd H1).
    unfold found; simpl. destruct (extract t sd r) as [v|]; simpl; [|reflexivity].
    now rewrite last_cons_default.
Qed.

Lemma initial_slot (t : topic) (sd : side) : slot t sd initial_locals = "N/A".
Proof. destruct t, sd; reflexivity. Qed.

Lemma scan_initial_slot (batch : list record) (st : locals) (t : topic) (sd : side) :
  scan initial_locals batch = inr st ->
  slot t sd st = last_found t sd batch.
Proof. intros H. rewrite (scan_slot _ _ _ t sd H). now rewrite initial_slot. Qed.

(** The call is the scan of the batch followed by the answer. *)
Lemma chat_inr q d r batch resp :
  chat_with_documents q d r batch = inr resp ->
  exists st,
    scan initial_locals batch = inr st
    /\ respond q (percentage (count_compliant batch) (Z.of_nat (length batch)))
               (Z.of_nat (length batch) - count_compliant batch) st
       = inr resp.
Proof.
  unfold chat_with_documents, analyse. destruct batch as [|r0 more].
  - simpl. intros H. exists initial_locals. split; [reflexivity | exact H].
  - intros H. apply bind_inr in H as ([[sc iss] st] & H1 & H2).
    apply bind_inr in H1 as (st1 & Hs & [= <- <- <-]).
    exists st1. split; assumption.
Qed.

Lemma chat_inl q d r batch e :
  scan initial_locals batch = inl e ->
  chat_with_documents q d r batch = inl e.
Proof.
  unfold chat_with_documents, analyse. destruct batch as [|r0 more].
  - discriminate.
  - intros ->. reflexivity.
Qed.

(** *** When the scan raises *)

Lemma search_into_total p s set st :
  re_bound st = true ->
  (forall v st0, re_bound (set v st0) = re_bound st0) ->
  exists st', search_into p s set st = inr st' /\ re_bound st' = true.
Proof.
  intros B S. rewrite search_into_bound by assumption.
  eexists; split; [reflexivity|].
  destruct (Re.search p s); [rewrite S|]; assumption.
Qed.

Lemma scan_result_bound (st : locals) (r : record) :
  re_bound st = true ->
  exists st', scan_result st r = inr st' /\ re_bound st' = true.
Proof.
  intros B. unfold scan_result. cbv zeta.
  assert (Bi : re_bound (import_re st) = true) by reflexivity.
  repeat match goal with
         | |- context [if ?b then _ else _] => destruct b
         end.
  5: now eauto.
  all: match goal with
       | |- context [bind (search_into ?p ?s ?set ?st0) _] =>
           destruct (search_into_total p s set st0) as (st1 & -> & B1);
           [assumption | intros; reflexivity | ]
       end;
    simpl; apply search_into_total; [assumption | intros; reflexivity].
Qed.

Lemma scan_bound (batch : list record) (st : locals) :
  re_bound st = true ->
  exists st', scan st batch = inr st' /\ re_bound st' = true.
Proof.
  revert st; induction batch as [|r more IH]; intros st B; simpl.
  - eauto.
  - destruct (scan_result_bound st r B) as (st1 & -> & B1). simpl. now apply IH.
Qed.

(** One round of the loop while [re] is unbound: a record of no
    category changes nothing, an insulation record imports [re], a
    record of any other category raises. *)
Lemma scan_result_unbound (st : locals) (r : record) :
  re_bound st = false ->
  match classify r with
  | None => scan_result st r = inr st
  | Some Insulation => exists st', scan_result st r = inr st' /\ re_bound st' = true
  | Some _ => scan_result st r = inl (Py.UnboundLocalError "re")
  end.
Proof.
  intros B. rewrite classify_cases. simpl.
  destruct (contains "insulation" (regulation_text_of r)
            && contains "thickness" (regulation_text_of r)) eqn:E1.
  { unfold scan_result. simpl. rewrite E1.
    rewrite search_into_bound
      by (destruct (Re.search thickness_pattern (regulation_text_of r)); reflexivity).
    eexists; split; [reflexivity|].
    repeat match goal with
           | |- context [Re.search ?p ?s] => destruct (Re.search p s)
           end; reflexivity. }
  unfold scan_result. simpl. rewrite E1.
  repeat match goal with
         | |- context [if ?b then _ else _] => destruct b
         end;
    try reflexivity; now rewrite search_into_unbound by assumption.
Qed.

(** The scan of a batch raises exactly when the first record that has
    a category is not an insulation record, and then with the unbound
    local [re]. *)
Lemma scan_unbound (batch : list record) (st : locals) :
  re_bound st = false ->
  match first_category batch with
  | None => scan st batch = inr st
  | Some Insulation => exists st', scan st batch = inr st'
  | Some _ => scan st batch = inl (Py.UnboundLocalError "re")
  end.
Proof.
  revert st; induction batch as [|r more IH]; intros st B.
  - reflexivity.
  - pose proof (scan_result_unbound st r B) as H.
    unfold first_category in *. simpl.
    destruct (classify r) as [[ | | | ]|]; simpl.
    + destruct H as (st1 & -> & B1). simpl.
      destruct (scan_bound more st1 B1) as (st' & -> & _). eauto.
    + now rewrite H.
    + now rewrite H.
    + now rewrite H.
    + rewrite H. simpl. now apply IH.
Qed.

Lemma scan_initial_cases (batch : list record) :
  match first_category batch with
  | None | Some Insulation => exists st, scan initial_locals batch = inr st
  | Some _ => scan initial_locals batch = inl (Py.UnboundLocalError "re")
  end.
Proof.
  pose proof (scan_unbound batch initial_locals eq_refl) as H.
  destruct (first_category batch) as [[ | | | ]|]; eauto.
Qed.

End ScanFacts.

(** ** Conversion of integers to binary64 *)
Module FloatFacts.
Import Py.

Lemma iter_xO_digits (p k : positive) :
  digits2_pos (Pos.iter xO p k) = (digits2_pos p + k)%positive.
Proof.
  apply (Pos.iter_ind _ xO p (fun k a => digits2_pos a = (digits2_pos p + k)%positive)).
  - simpl. now rewrite Pos.add_1_r.
  - intros q a H. simpl. rewrite H. now rewrite Pos.add_succ_r.
Qed.

Lemma iter_xO_value (p k : positive) :
  Zpos (Pos.iter xO p k) = (Zpos p * 2 ^ Zpos k)%Z.
Proof.
  apply (Pos.iter_ind _ xO p (fun k a => Zpos a = (Zpos p * 2 ^ Zpos k)%Z)).
  - change (2 ^ 1)%Z with 2%Z. lia.
  - intros q a H. rewrite Pos2Z.inj_succ, Z.pow_succ_r by lia.
    rewrite Pos2Z.inj_xO, H. ring.
Qed.

Lemma digits2_size (p : positive) : digits2_pos p = Pos.size p.
Proof. induction p as [p IH|p IH|]; simpl; [now rewrite IH .. | reflexivity]. Qed.

Lemma digits2_upper (p : positive) : (Zpos p < 2 ^ Zpos (digits2_pos p))%Z.
Proof.
  rewrite digits2_size. pose proof (Pos.size_gt p) as H.
  rewrite <- Pos2Z.inj_pow. lia.
Qed.

Lemma digits2_lower (p : positive) : (2 ^ (Zpos (digits2_pos p) - 1) <= Zpos p)%Z.
Proof.
  rewrite digits2_size. pose proof (Pos.size_le p) as H.
  assert (E : (2 ^ Zpos (Pos.size p) = 2 * 2 ^ (Zpos (Pos.size p) - 1))%Z).
  { rewrite <- Z.pow_succ_r by lia. f_equal. lia. }
  assert (H' : (2 ^ Zpos (Pos.size p) <= Zpos p~0)%Z)
    by (rewrite <- Pos2Z.inj_pow; lia).
  rewrite Pos2Z.inj_xO in H'. lia.
Qed.

(** A mantissa of 53 bits with an exponent in range is kept as it is. *)
Lemma round_canonical (m : positive) (e : Z) :
  digits2_pos m = 53%positive -> (-1074 <= e <= 971)%Z ->
  binary_round_aux prec emax false (Zpos m) e loc_Exact = S754_finite false m e.
Proof.
  intros D He.
  assert (E : (fexp prec emax (Zpos 53 + e) - e = 0)%Z)
    by (unfold fexp, emin, prec, emax; lia).
  unfold binary_round_aux, shr_fexp. simpl Zdigits2. rewrite D, E. simpl.
  rewrite D, E. simpl.
  destruct (e <=? emax - prec)%Z eqn:L; [reflexivity|].
  unfold emax, prec in L. lia.
Qed.

(** [float(n)] for [0 < n < 2^53]: the conversion is exact. *)
Lemma float_of_small (p : positive) :
  (Zpos p < 2 ^ 53)%Z ->
  float_of_Z (Zpos p)
  = S754_finite false (mantissa53 p) (Zpos (digits2_pos p) - 53).
Proof.
  intros Hp.
  assert (Hd : (Zpos (digits2_pos p) <= 53)%Z).
  { pose proof (digits2_lower p) as L.
    destruct (Z_le_gt_dec (Zpos (digits2_pos p)) 53) as [|G]; [assumption|].
    assert (2 ^ 53 <= 2 ^ (Zpos (digits2_pos p) - 1))%Z
      by (apply Z.pow_le_mono_r; lia).
    lia. }
  unfold float_of_Z, binary_normalize, binary_round, shl_align.
  assert (E : (fexp prec emax (Zpos (digits2_pos p) + 0)
               = Zpos (digits2_pos p) - 53)%Z)
    by (unfold fexp, emin, prec, emax; lia).
  rewrite E, Z.sub_0_r. unfold mantissa53.
  destruct (Zpos (digits2_pos p) - 53)%Z as [|k|k] eqn:K; [| lia |].
  - assert (D : digits2_pos p = 53%positive) by lia.
    rewrite (round_canonical p 0 D) by lia. reflexivity.
  - assert (D : digits2_pos (Pos.iter xO p k) = 53%positive)
      by (rewrite iter_xO_digits; lia).
    rewrite (round_canonical _ _ D) by lia. reflexivity.
Qed.

Lemma mantissa53_value (p : positive) :
  (Zpos (digits2_pos p) <= 53)%Z ->
  Zpos (mantissa53 p) = (Zpos p * 2 ^ (53 - Zpos (digits2_pos p)))%Z.
Proof.
  intros Hd. unfold mantissa53.
  destruct (Zpos (digits2_pos p) - 53)%Z as [|k|k] eqn:K; [| lia |].
  - replace (53 - Zpos (digits2_pos p))%Z with 0%Z by lia. simpl. lia.
  - rewrite iter_xO_value. f_equal. f_equal. lia.
Qed.

Lemma fge_small_pos (p q : positive) :
  (Zpos p < 2 ^ 53)%Z -> (Zpos q < 2 ^ 53)%Z ->
  fge (float_of_Z (Zpos q)) (float_of_Z (Zpos p)) = (Zpos p <=? Zpos q)%Z.
Proof.
  intros Hp Hq. rewrite !float_of_small by assumption.
  assert (Dp : (Zpos (digits2_pos p) <= 53)%Z).
  { pose proof (digits2_lower p).
    destruct (Z_le_gt_dec (Zpos (digits2_pos p)) 53); [assumption|].
    assert (2 ^ 53 <= 2 ^ (Zpos (digits2_pos p) - 1))%Z
      by (apply Z.pow_le_mono_r; lia). lia. }
  assert (Dq : (Zpos (digits2_pos q) <= 53)%Z).
  { pose proof (digits2_lower q).
    destruct (Z_le_gt_dec (Zpos (digits2_pos q)) 53); [assumption|].
    assert (2 ^ 53 <= 2 ^ (Zpos (digits2_pos q) - 1))%Z
      by (apply Z.pow_le_mono_r; lia). lia. }
  pose proof (mantissa53_value p Dp) as Vp.
  pose proof (mantissa53_value q Dq) as Vq.
  pose proof (digits2_lower p) as Lp. pose proof (digits2_upper p) as Up.
  pose proof (digits2_lower q) as Lq. pose proof (digits2_upper q) as Uq.
  unfold fge, SFleb, SFcompare.
  destruct (Z.compare_spec (Zpos (digits2_pos p) - 53) (Zpos (digits2_pos q) - 53))
    as [E|L|G].
  - assert (E' : Zpos (digits2_pos p) = Zpos (digits2_pos q)) by lia.
    rewrite E' in Vp.
    assert (P2 : (0 < 2 ^ (53 - Zpos (digits2_pos q)))%Z)
      by (apply Z.pow_pos_nonneg; lia).
    change (Pos.compare_cont Eq (mantissa53 p) (mantissa53 q))
      with (Zpos (mantissa53 p) ?= Zpos (mantissa53 q))%Z.
    destruct (Z.compare_spec (Zpos (mantissa53 p)) (Zpos (mantissa53 q)));
      symmetry; [apply Z.leb_le | apply Z.leb_le | apply Z.leb_gt]; nia.
  - assert (2 ^ Zpos (digits2_pos p) <= 2 ^ (Zpos (digits2_pos q) - 1))%Z
      by (apply Z.pow_le_mono_r; lia).
    symmetry; apply Z.leb_le; lia.
  - assert (2 ^ Zpos (digits2_pos q) <= 2 ^ (Zpos (digits2_pos p) - 1))%Z
      by (apply Z.pow_le_mono_r; lia).
    symmetry; apply Z.leb_gt; lia.
Qed.

(** Below [2^53] the comparison of the floats is the comparison of the
    integers. *)
Lemma fge_small (a b : Z) :
  (0 <= a < 2 ^ 53)%Z -> (0 <= b < 2 ^ 53)%Z ->
  fge (float_of_Z a) (float_of_Z b) = (b <=? a)%Z.
Proof.
  intros Ha Hb. destruct a as [|q|q], b as [|p|p]; try lia.
  - reflexivity.
  - rewrite float_of_small by lia. reflexivity.
  - rewrite float_of_small by lia. reflexivity.
  - apply fge_small_pos; lia.
Qed.

Lemma iter_pos_preserves {A} (P : A -> Prop) (f : A -> A) :
  (forall x, P x -> P (f x)) -> forall n x, P x -> P (SpecFloat.iter_pos f n x).
Proof.
  intros Hf n; induction n as [n IH|n IH|]; intros x Hx; simpl; auto.
Qed.

Lemma shr_1_nonneg (mrs : shr_record) :
  (0 <= shr_m mrs)%Z -> (0 <= shr_m (shr_1 mrs))%Z.
Proof.
  destruct mrs as [m r s]; simpl. destruct m as [|[m|m|]|[m|m|]]; simpl; lia.
Qed.

Lemma shr_nonneg (mrs : shr_record) (e n : Z) :
  (0 <= shr_m mrs)%Z -> (0 <= shr_m (fst (shr mrs e n)))%Z.
Proof.
  intros H. destruct n as [|k|k]; simpl; try assumption.
  apply (iter_pos_preserves (fun x => (0 <= shr_m x)%Z)); [|assumption].
  apply shr_1_nonneg.
Qed.

Lemma shr_fexp_nonneg (m e : Z) (l : location) :
  (0 <= m)%Z -> (0 <= shr_m (fst (shr_fexp prec emax m e l)))%Z.
Proof.
  intros H. unfold shr_fexp. apply shr_nonneg. destruct l as [|[ | | ]]; exact H.
Qed.

Lemma round_nearest_even_nonneg (m : Z) (l : location) :
  (0 <= m)%Z -> (0 <= round_nearest_even m l)%Z.
Proof.
  intros H. destruct l as [|[ | | ]]; simpl; try lia.
  destruct (Z.even m); lia.
Qed.

Lemma round_aux_not_nan (s : bool) (m e : Z) (l : location) :
  (0 <= m)%Z -> binary_round_aux prec emax s m e l <> S754_nan.
Proof.
  intros H. unfold binary_round_aux.
  pose proof (shr_fexp_nonneg m e l H) as H1.
  destruct (shr_fexp prec emax m e l) as [mrs1 e1]; simpl in H1.
  pose proof (shr_fexp_nonneg _ e1 loc_Exact
                (round_nearest_even_nonneg _ (loc_of_shr_record mrs1) H1)) as H2.
  destruct (shr_fexp prec emax _ e1 loc_Exact) as [mrs2 e2]; simpl in H2.
  destruct (shr_m mrs2) as [|k|k]; [discriminate | | lia].
  destruct (e2 <=? emax - prec)%Z; discriminate.
Qed.

Lemma float_of_Z_not_nan (n : Z) : float_of_Z n <> S754_nan.
Proof.
  unfold float_of_Z, binary_normalize, binary_round.
  destruct n as [|m|m]; [discriminate | |];
    destruct (shl_align _ _ _) as [mz ez]; apply round_aux_not_nan; lia.
Qed.

Lemma fge_refl (x : spec_float) : x <> S754_nan -> fge x x = true.
Proof.
  intros H. unfold fge, SFleb, SFcompare.
  destruct x as [s|s|
                |s m e]; [reflexivity | now destruct s | congruence |].
  rewrite Z.compare_refl, Pcompare_refl. now destruct s.
Qed.

(** *** Integers of any size *)

#[local] Open Scope Z_scope.

Lemma iter_pos_comm {A} (f : A -> A) (n : positive) (x : A) :
  SpecFloat.iter_pos f n (f x) = f (SpecFloat.iter_pos f n x).
Proof.
  revert x; induction n as [n IH|n IH|]; intros x; simpl.
  - now rewrite !IH.
  - now rewrite !IH.
  - reflexivity.
Qed.

Lemma iter_pos_succ {A} (f : A -> A) (n : positive) (x : A) :
  SpecFloat.iter_pos f (Pos.succ n) x = f (SpecFloat.iter_pos f n x).
Proof.
  revert x; induction n as [n IH|n IH|]; intros x; simpl.
  - rewrite !IH. now rewrite !iter_pos_comm.
  - now rewrite !iter_pos_comm.
  - reflexivity.
Qed.

Lemma shr_1_spec (m : Z) (r s : bool) :
  0 <= m ->
  shr_1 (Build_shr_record m r s) = Build_shr_record (m / 2) (Z.odd m) (r || s).
Proof.
  intros H. rewrite <- Z.div2_div.
  destruct m as [|[m|m|]|m]; simpl; try reflexivity; lia.
Qed.

(** [k] right shifts of the mantissa [p]: the quotient, the last bit
    shifted out, and whether a lower bit was set. *)
Lemma shr_iter (p : Z) (k : positive) :
  0 <= p ->
  SpecFloat.iter_pos shr_1 k (Build_shr_record p false false)
  = Build_shr_record (p / 2 ^ Zpos k)
                     (Z.odd (p / 2 ^ (Zpos k - 1)))
                     (negb (p mod 2 ^ (Zpos k - 1) =? 0)).
Proof.
  intros Hp. induction k as [|k IH] using Pos.peano_ind.
  - unfold SpecFloat.iter_pos. rewrite shr_1_spec by assumption.
    change (2 ^ (1 - 1)) with 1. rewrite Z.div_1_r, Z.mod_1_r. reflexivity.
  - rewrite iter_pos_succ, IH.
    assert (P : 0 < 2 ^ (Zpos k - 1)) by (apply Z.pow_pos_nonneg; lia).
    assert (E : 2 ^ Zpos k = 2 ^ (Zpos k - 1) * 2).
    { replace (Zpos k) with (Z.succ (Zpos k - 1)) at 1 by lia.
      rewrite Z.pow_succ_r by lia. ring. }
    rewrite shr_1_spec by (apply Z.div_pos; lia).
    rewrite Pos2Z.inj_succ.
    replace (Z.succ (Zpos k) - 1) with (Zpos k) by lia.
    rewrite Z.pow_succ_r by lia.
    f_equal.
    + rewrite Z.div_div by lia. f_equal. ring.
    + rewrite E. rewrite Z.rem_mul_r by lia.
      rewrite <- Z.bit0_mod, Z.bit0_odd.
      pose proof (Z.mod_pos_bound p (2 ^ (Zpos k - 1)) P) as B.
      destruct (Z.odd (p / 2 ^ (Zpos k - 1))) eqn:O; simpl.
      * symmetry. apply negb_true_iff. apply Z.eqb_neq. lia.
      * now rewrite Z.mul_0_r, Z.add_0_r.
Qed.

Lemma round_after_shift (p : Z) (k : positive) :
  0 <= p ->
  let mrs := SpecFloat.iter_pos shr_1 k (Build_shr_record p false false) in
  round_nearest_even (shr_m mrs) (loc_of_shr_record mrs) = round_shift p (Zpos k).
Proof.
  intros Hp mrs. unfold mrs. rewrite shr_iter by assumption. unfold round_shift. simpl.
  destruct (Z.odd (p / 2 ^ (Zpos k - 1))), (negb (p mod 2 ^ (Zpos k - 1) =? 0));
    simpl; try reflexivity.
  rewrite <- Z.negb_odd. now destruct (Z.odd (p / 2 ^ Zpos k)).
Qed.

Lemma digits2_unique (m : positive) (k : Z) :
  2 ^ (k - 1) <= Zpos m < 2 ^ k -> Zpos (digits2_pos m) = k.
Proof.
  intros [L U]. pose proof (digits2_lower m) as L'. pose proof (digits2_upper m) as U'.
  assert (0 < k).
  { destruct (Z_lt_le_dec 0 k); [assumption|].
    destruct (Z.eq_dec k 0) as [->|]; [simpl in U; lia|].
    rewrite (Z.pow_neg_r 2 k) in U by lia. lia. }
  destruct (Z.lt_trichotomy (Zpos (digits2_pos m)) k) as [C|[C|C]]; [|assumption|].
  - assert (2 ^ Zpos (digits2_pos m) <= 2 ^ (k - 1)) by (apply Z.pow_le_mono_r; lia). lia.
  - assert (2 ^ k <= 2 ^ (Zpos (digits2_pos m) - 1)) by (apply Z.pow_le_mono_r; lia). lia.
Qed.

Lemma round_shift_bounds (p : positive) :
  let d := Zpos (digits2_pos p) in
  53 < d ->
  2 ^ 52 <= Zpos p / 2 ^ (d - 53) < 2 ^ 53
  /\ 2 ^ 52 <= round_shift (Zpos p) (d - 53) <= 2 ^ 53.
Proof.
  intros d Hd.
  pose proof (digits2_lower p) as L. pose proof (digits2_upper p) as U. fold d in L, U.
  assert (P : 0 < 2 ^ (d - 53)) by (apply Z.pow_pos_nonneg; lia).
  assert (E1 : 2 ^ (d - 1) = 2 ^ 52 * 2 ^ (d - 53))
    by (rewrite <- Z.pow_add_r by lia; f_equal; lia).
  assert (E2 : 2 ^ d = 2 ^ 53 * 2 ^ (d - 53))
    by (rewrite <- Z.pow_add_r by lia; f_equal; lia).
  assert (Q : 2 ^ 52 <= Zpos p / 2 ^ (d - 53) < 2 ^ 53).
  { split.
    - apply Z.div_le_lower_bound; lia.
    - apply Z.div_lt_upper_bound; lia. }
  split; [exact Q|]. unfold round_shift.
  destruct (_ && _); lia.
Qed.

Lemma float_of_large (p : positive) :
  let d := Zpos (digits2_pos p) in
  53 < d ->
  let n := d - 53 in
  let m1 := round_shift (Zpos p) n in
  float_of_Z (Zpos p)
  = if m1 <? 2 ^ 53
    then (if n <=? 971 then S754_finite false (Z.to_pos m1) n else S754_infinity false)
    else (if n + 1 <=? 971 then S754_finite false (Z.to_pos (2 ^ 52)) (n + 1)
          else S754_infinity false).
Proof.
  intros d Hd n m1.
  destruct (round_shift_bounds p Hd) as [Q B]. fold d n m1 in Q, B.
  unfold float_of_Z, binary_normalize, binary_round, shl_align.
  assert (F : fexp prec emax (d + 0) = n) by (unfold fexp, emin, prec, emax, n; lia).
  fold d. rewrite F, Z.sub_0_r.
  destruct n as [|k|k] eqn:N; [lia| |lia].
  assert (S1 : shr_fexp prec emax (Zpos p) 0 loc_Exact
               = (SpecFloat.iter_pos shr_1 k (Build_shr_record (Zpos p) false false),
                  Zpos k)).
  { unfold shr_fexp. simpl Zdigits2. fold d. rewrite F, Z.sub_0_r. reflexivity. }
  unfold binary_round_aux. rewrite S1.
  pose proof (round_after_shift (Zpos p) k) as R. simpl in R.
  rewrite R by lia. fold m1.
  destruct (m1 <? 2 ^ 53) eqn:M.
  - apply Z.ltb_lt in M.
    destruct m1 as [|m|m] eqn:M1; [lia| |lia].
    assert (D : Zpos (digits2_pos m) = 53) by (apply digits2_unique; lia).
    unfold shr_fexp. simpl Zdigits2. rewrite D.
    assert (F2 : fexp prec emax (53 + Zpos k) - Zpos k = 0)
      by (unfold fexp, emin, prec, emax; lia).
    rewrite F2. simpl.
    unfold emax, prec. change (1024 - 53) with 971. reflexivity.
  - apply Z.ltb_ge in M. assert (M1 : m1 = 2 ^ 53) by lia. rewrite M1.
    unfold shr_fexp.
    assert (F2 : fexp prec emax (Zdigits2 (2 ^ 53) + Zpos k) - Zpos k = 1)
      by (change (Zdigits2 (2 ^ 53)) with 54; unfold fexp, emin, prec, emax; lia).
    rewrite F2. simpl.
    unfold emax, prec. change (1024 - 53) with 971.
    replace (Zpos (k + 1)) with (Zpos k + 1) by lia. reflexivity.
Qed.

Lemma digits_le_53 (p : positive) :
  Zpos p < 2 ^ 53 -> Zpos (digits2_pos p) <= 53.
Proof.
  intros Hp. pose proof (digits2_lower p) as L.
  destruct (Z_le_gt_dec (Zpos (digits2_pos p)) 53); [assumption|].
  assert (2 ^ 53 <= 2 ^ (Zpos (digits2_pos p) - 1)) by (apply Z.pow_le_mono_r; lia).
  lia.
Qed.

Lemma pow2_split (a b : Z) : 0 <= a -> 0 <= b -> 2 ^ (a + b) = 2 ^ a * 2 ^ b.
Proof. intros. now apply Z.pow_add_r. Qed.

Lemma float_represents (p : positive) :
  represents (float_of_Z (Zpos p)) (rounded p).
Proof.
  unfold rounded. set (d := Zpos (digits2_pos p)).
  pose proof (digits2_lower p) as L. pose proof (digits2_upper p) as U. fold d in L, U.
  assert (D0 : 0 < d) by (unfold d; lia).
  destruct (d <=? 53) eqn:C.
  - apply Z.leb_le in C. left.
    assert (Hp : Zpos p < 2 ^ 53).
    { assert (2 ^ d <= 2 ^ 53) by (apply Z.pow_le_mono_r; lia). lia. }
    split.
    { assert (2 ^ 53 <= 2 ^ 1024) by (apply Z.pow_le_mono_r; lia). lia. }
    rewrite float_of_small by assumption. fold d.
    exists (mantissa53 p), (d - 53).
    pose proof (mantissa53_value p C) as V. fold d in V.
    assert (E1 : 2 ^ 52 = 2 ^ (d - 1) * 2 ^ (53 - d))
      by (rewrite <- pow2_split by lia; f_equal; lia).
    assert (E2 : 2 ^ 53 = 2 ^ d * 2 ^ (53 - d))
      by (rewrite <- pow2_split by lia; f_equal; lia).
    assert (P : 0 < 2 ^ (53 - d)) by (apply Z.pow_pos_nonneg; lia).
    split; [reflexivity|]. split; [|split; [lia|]].
    + apply digits2_unique. change (53 - 1) with 52. rewrite V. nia.
    + rewrite V. replace (d - 53 + 52) with (d - 1) by lia. rewrite E1. ring.
  - apply Z.leb_gt in C.
    destruct (round_shift_bounds p C) as [Q B]. fold d in Q, B.
    rewrite (float_of_large p C). fold d.
    set (n := d - 53) in *. set (m1 := round_shift (Zpos p) n) in *.
    assert (N : 0 < n) by (unfold n; lia).
    assert (P : 0 < 2 ^ n) by (apply Z.pow_pos_nonneg; lia).
    assert (E52 : 2 ^ (n + 52) = 2 ^ n * 2 ^ 52) by (apply pow2_split; lia).
    destruct (m1 <? 2 ^ 53) eqn:M; [apply Z.ltb_lt in M | apply Z.ltb_ge in M].
    + destruct (n <=? 971) eqn:O; [apply Z.leb_le in O | apply Z.leb_gt in O].
      * left. split.
        { assert (2 ^ n <= 2 ^ 971) by (apply Z.pow_le_mono_r; lia).
          change (2 ^ 1024) with (2 ^ 53 * 2 ^ 971). nia. }
        exists (Z.to_pos m1), n.
        assert (T : Zpos (Z.to_pos m1) = m1) by (apply Z2Pos.id; lia).
        split; [reflexivity|]. split; [|split; [lia|]].
        -- apply digits2_unique. rewrite T. change (53 - 1) with 52. lia.
        -- rewrite T, E52. ring.
      * right. split; [|reflexivity].
        assert (2 ^ 972 <= 2 ^ n) by (apply Z.pow_le_mono_r; lia).
        change (2 ^ 1024) with (2 ^ 52 * 2 ^ 972). nia.
    + assert (M1 : m1 = 2 ^ 53) by lia. rewrite M1.
      destruct (n + 1 <=? 971) eqn:O; [apply Z.leb_le in O | apply Z.leb_gt in O].
      * left. split.
        { assert (2 ^ n <= 2 ^ 970) by (apply Z.pow_le_mono_r; lia).
          change (2 ^ 1024) with (2 ^ 53 * (2 * 2 ^ 970)).
          assert (0 < 2 ^ 970) by (apply Z.pow_pos_nonneg; lia). nia. }
        exists (Z.to_pos (2 ^ 52)), (n + 1).
        split; [reflexivity|]. split; [reflexivity|]. split; [lia|].
        change (Zpos (Z.to_pos (2 ^ 52))) with (2 ^ 52).
        replace (n + 1 + 52) with (n + 53) by lia.
        rewrite (pow2_split n 53) by lia. ring.
      * right. split; [|reflexivity].
        assert (2 ^ 971 <= 2 ^ n) by (apply Z.pow_le_mono_r; lia).
        change (2 ^ 1024) with (2 ^ 53 * 2 ^ 971). nia.
Qed.

Lemma represents_leb (x y : spec_float) (V V' : Z) :
  represents x V -> represents y V' -> V <= V' -> SFleb x y = true.
Proof.
  intros [(Vx & m1 & e1 & -> & D1 & E1 & W1)|(Vx & ->)]
         [(Vy & m2 & e2 & -> & D2 & E2 & W2)|(Vy & ->)] Hle;
    try reflexivity; [|lia].
  pose proof (digits2_lower m1) as L1. pose proof (digits2_upper m1) as U1.
  pose proof (digits2_lower m2) as L2. pose proof (digits2_upper m2) as U2.
  rewrite D1 in L1, U1. rewrite D2 in L2, U2. change (53 - 1) with 52 in L1, L2.
  assert (P52 : 0 < 2 ^ 52) by (apply Z.pow_pos_nonneg; lia).
  assert (W : Zpos m1 * 2 ^ (e1 + 52) <= Zpos m2 * 2 ^ (e2 + 52)) by nia.
  unfold SFleb, SFcompare.
  destruct (Z.compare_spec e1 e2) as [E|E|E]; [|reflexivity|].
  - subst e2.
    assert (P : 0 < 2 ^ (e1 + 52)) by (apply Z.pow_pos_nonneg; lia).
    change (Pos.compare_cont Eq m1 m2) with (Zpos m1 ?= Zpos m2).
    destruct (Z.compare_spec (Zpos m1) (Zpos m2)); try reflexivity. nia.
  - exfalso.
    assert (P : 0 < 2 ^ (e2 + 52)) by (apply Z.pow_pos_nonneg; lia).
    assert (S : 2 * 2 ^ (e2 + 52) <= 2 ^ (e1 + 52)).
    { rewrite <- Z.pow_succ_r by lia. apply Z.pow_le_mono_r; lia. }
    change (2 ^ 53) with (2 * 2 ^ 52) in U2. nia.
Qed.

(** Rounding at a fixed position is monotone. *)
Lemma round_shift_mono (a b n : Z) :
  0 < n -> 0 <= a <= b -> round_shift a n <= round_shift b n.
Proof.
  intros N [A AB]. unfold round_shift.
  set (h := 2 ^ (n - 1)).
  assert (H : 0 < h) by (apply Z.pow_pos_nonneg; lia).
  assert (E : 2 ^ n = h * 2).
  { unfold h. replace n with (Z.succ (n - 1)) at 1 by lia.
    rewrite Z.pow_succ_r by lia. ring. }
  rewrite E.
  assert (Dec : forall x, 0 <= x ->
            x = (x / (h * 2)) * (h * 2) + Z.b2z (Z.odd (x / h)) * h + x mod h
            /\ 0 <= x mod h < h).
  { intros x Hx. split; [|apply Z.mod_pos_bound; lia].
    rewrite (Z.div_mod x (h * 2)) at 1 by lia.
    rewrite Z.rem_mul_r by lia. rewrite <- Z.bit0_mod, Z.bit0_odd. ring. }
  destruct (Dec a A) as [Ea Ba]. destruct (Dec b ltac:(lia)) as [Eb Bb].
  assert (Q : a / (h * 2) <= b / (h * 2)) by (apply Z.div_le_mono; lia).
  set (qa := a / (h * 2)) in *. set (qb := b / (h * 2)) in *.
  destruct (Z.eq_dec qa qb) as [Eq|Ne].
  - rewrite <- Eq in *.
    destruct (Z.odd (a / h)) eqn:Ra, (Z.odd (b / h)) eqn:Rb;
      destruct (Z.eqb_spec (a mod h) 0), (Z.eqb_spec (b mod h) 0);
      destruct (Z.odd qa); simpl in *; lia.
  - destruct (Z.odd (a / h) && _), (Z.odd (b / h) && _); lia.
Qed.

Lemma rounded_bounds (p : positive) :
  2 ^ (Zpos (digits2_pos p) - 1) <= rounded p <= 2 ^ Zpos (digits2_pos p).
Proof.
  unfold rounded. set (d := Zpos (digits2_pos p)).
  pose proof (digits2_lower p) as L. pose proof (digits2_upper p) as U. fold d in L, U.
  destruct (d <=? 53) eqn:C; [lia|]. apply Z.leb_gt in C.
  destruct (round_shift_bounds p C) as [_ B]. fold d in B.
  assert (P : 0 < 2 ^ (d - 53)) by (apply Z.pow_pos_nonneg; lia).
  assert (E1 : 2 ^ (d - 1) = 2 ^ 52 * 2 ^ (d - 53))
    by (rewrite <- Z.pow_add_r by lia; f_equal; lia).
  assert (E2 : 2 ^ d = 2 ^ 53 * 2 ^ (d - 53))
    by (rewrite <- Z.pow_add_r by lia; f_equal; lia).
  nia.
Qed.

Lemma rounded_mono (p q : positive) :
  Zpos p <= Zpos q -> rounded p <= rounded q.
Proof.
  intros H.
  pose proof (rounded_bounds p) as Bp. pose proof (rounded_bounds q) as Bq.
  pose proof (digits2_lower p) as Lp. pose proof (digits2_upper p) as Up.
  pose proof (digits2_lower q) as Lq. pose proof (digits2_upper q) as Uq.
  destruct (Z.lt_trichotomy (Zpos (digits2_pos p)) (Zpos (digits2_pos q)))
    as [C|[C|C]].
  - assert (2 ^ Zpos (digits2_pos p) <= 2 ^ (Zpos (digits2_pos q) - 1))
      by (apply Z.pow_le_mono_r; lia). lia.
  - unfold rounded. rewrite C.
    destruct (Zpos (digits2_pos q) <=? 53) eqn:D; [assumption|].
    apply Z.leb_gt in D.
    apply Z.mul_le_mono_nonneg_r; [apply Z.pow_nonneg; lia|].
    apply round_shift_mono; lia.
  - assert (2 ^ Zpos (digits2_pos q) <= 2 ^ (Zpos (digits2_pos p) - 1))
      by (apply Z.pow_le_mono_r; lia). lia.
Qed.

(** The conversion to binary64 keeps the order of the integers. *)
Lemma fge_mono (a b : Z) :
  0 <= b <= a -> fge (float_of_Z a) (float_of_Z b) = true.
Proof.
  intros [B AB]. unfold fge.
  destruct b as [|q|q]; [| |lia].
  - destruct a as [|p|p]; [reflexivity| |lia].
    destruct (float_represents p) as [(_ & m & e & -> & _)|(_ & ->)]; reflexivity.
  - destruct a as [|p|p]; [lia| |lia].
    apply (represents_leb _ _ (rounded q) (rounded p));
      [apply float_represents .. | now apply rounded_mono].
Qed.

End FloatFacts.

(** ** The query responder *)
Module Responder.
Import Py Re App ScanFacts Samples.

(** The answer by the kind of the question. *)
Lemma respond_by_kind (q : string) (score : num) (issues : Z) (st : locals) :
  respond q score issues st =
  match classify_question q with
  | AskCompliance => ret (responses_compliance (format_1f score) (str_of_Z issues))
  | AskTopic Insulation =>
      ret (responses_insulation (design_thickness st) (required_thickness st))
  | AskTopic Seismic =>
      ret (responses_seismic (design_seismic st) (required_seismic st))
  | AskTopic Emergency =>
      let* meets := meets_text (design_hours st) (required_hours st) in
      ret (responses_emergency (design_hours st) meets (required_hours st))
  | AskTopic Pumps =>
      ret (responses_pumps (design_pumps st) (required_pumps st))
  | AskOther => ret help_message
  end.
Proof.
  unfold respond, classify_question.
  repeat match goal with
         | |- context [if ?b then _ else _] => destruct b
         end; reflexivity.
Qed.

Lemma count_compliant_from (batch : list record) (acc : Z) :
  fold_left (fun acc r => if is_compliant r then (acc + 1)%Z else acc) batch acc
  = (acc + Z.of_nat (length (List.filter is_compliant batch)))%Z.
Proof.
  revert acc; induction batch as [|r batch IH]; intros acc; simpl; [lia|].
  rewrite IH. destruct (is_compliant r); simpl; lia.
Qed.

(** The running sum of the code counts the compliant records. *)
Lemma count_compliant_filter (batch : list record) :
  count_compliant batch = Z.of_nat (length (List.filter is_compliant batch)).
Proof. unfold count_compliant. now rewrite count_compliant_from. Qed.

(** C2, as the code has it: the call raises for a batch whose seismic
    record comes before its insulation record, although it answers
    for the same records in the other order.  [re] is imported inside
    the insulation branch of the scan only, so the other branches read
    an unbound local name until an insulation record was scanned. *)
Theorem chat_raises_when_seismic_precedes_insulation :
  chat_with_documents "What is the seismic resistance capability?" "" ""
                      [seismic_035_025; insulation_50_45]
  = inl (UnboundLocalError "re")
  /\ chat_with_documents "What is the seismic resistance capability?" "" ""
                         [insulation_50_45; seismic_035_025]
     = inr (responses_seismic "0.25" "0.35").
Proof. split; vm_compute; reflexivity. Qed.

(** C3, as stated, fails: for a batch with two insulation records the
    response does not render the first values found (45 and 50). *)
Lemma first_found_not_rendered :
  let batch := [insulation_50_45; insulation_60_55] in
  first_found Insulation Design batch = "45"
  /\ first_found Insulation Requirement batch = "50"
  /\ ~ (exists response,
          chat_with_documents "How thick is the insulation?" "" "" batch
          = inr response
          /\ renders Insulation (first_found Insulation Design batch)
                     (first_found Insulation Requirement batch) response).
Proof.
  split; [vm_compute; reflexivity|]. split; [vm_compute; reflexivity|].
  intros (response & H & R). vm_compute in H. vm_compute in R.
  rewrite R in H. discriminate H.
Qed.

(** The response to a question on a topic, whenever there is one, is
    the template filled with the last values found. *)
Lemma chat_renders_last_found
    (q d r : string) (batch : list record) (t : topic) (response : string) :
  classify_question q = AskTopic t ->
  chat_with_documents q d r batch = inr response ->
  renders t (last_found t Design batch) (last_found t Requirement batch) response.
Proof.
  intros Hq H.
  apply chat_inr in H as (st & Hs & H).
  rewrite respond_by_kind, Hq in H.
  rewrite <- (scan_initial_slot _ _ t Design Hs),
          <- (scan_initial_slot _ _ t Requirement Hs).
  destruct t; simpl in *.
  - now inversion H.
  - now inversion H.
  - apply bind_inr in H as (m & _ & H). exists m. now inversion H.
  - now inversion H.
Qed.

(** C3, amended: whenever the call returns a response to a question on
    one of the four topics, the response is the topic's template
    filled with the LAST design-side and the LAST requirement-side
    value found among the records of that category, in batch order; a
    side for which no record yields a value renders as "N/A". *)
Theorem topic_response_renders_last_found
    (q d r : string) (batch : list record) (t : topic) (response : string) :
  classify_question q = AskTopic t ->
  chat_with_documents q d r batch = inr response ->
  renders t (last_found t Design batch) (last_found t Requirement batch) response
  /\ (forall sd, found t sd batch = [] -> last_found t sd batch = "N/A").
Proof.
  intros Hq H. split.
  - now apply (chat_renders_last_found q d r).
  - intros sd E. unfold last_found. now rewrite E.
Qed.

Lemma topic_response_renders_last_found_witness :
  let batch := [insulation_50_45; seismic_035_025; insulation_60_55] in
  renders Insulation "55" "60"
    "The design specifies 55mm insulation thickness, while regulations require minimum 60mm."
  /\ last_found Seismic Design [insulation_50_45] = "N/A".
Proof.
  split.
  - exact (proj1 (topic_response_renders_last_found
                    "How thick is the insulation?" "" ""
                    [insulation_50_45; seismic_035_025; insulation_60_55]
                    Insulation _ eq_refl eq_refl)).
  - exact (proj2 (topic_response_renders_last_found
                    "seismic?" "" "" [insulation_50_45] Seismic
                    _ eq_refl eq_refl) Design eq_refl).
Defined.

(** C4, as the code has it: for a batch of 4 results of which exactly
    1 has the status "Compliant", the question on the compliance score
    is answered with 25.0% and 3 issues when the insulation record
    stands first, but with the seismic record first the call raises
    and reports no score; the empty batch is answered with 0.0% and 0
    issues.  The score and the number of issues are computed before
    the scan of the batch, and the scan raises for the unbound [re]
    that C2 shows. *)
Theorem compliance_score_lost_when_scan_raises :
  let q := "What is the compliance score?" in
  let batch := [seismic_035_025; insulation_50_45; emergency_72_96; pumps_words] in
  length batch = 4%nat
  /\ map (fun rec => rec !! "compliance_status") batch
     = [Some "Non-Compliant"; Some "Non-Compliant"; Some "Compliant";
        Some "Non-Compliant"]
  /\ classify_question q = AskCompliance
  /\ chat_with_documents q "" "" batch = inl (UnboundLocalError "re")
  /\ chat_with_documents q "" ""
       [insulation_50_45; seismic_035_025; emergency_72_96; pumps_words]
     = inr "Based on the analysis, the overall compliance score is 25.0%. 3 issues were found."
  /\ chat_with_documents q "" "" []
     = inr "Based on the analysis, the overall compliance score is 0.0%. 0 issues were found.".
Proof. repeat split; vm_compute; reflexivity. Qed.

(** A question of no topic gets the help message whenever the scan of
    the batch does not raise. *)
Lemma other_question_help (q d r : string) (batch : list record) :
  classify_question q = AskOther ->
  match first_category batch with
  | None | Some Insulation => chat_with_documents q d r batch = inr help_message
  | Some _ => chat_with_documents q d r batch = inl (UnboundLocalError "re")
  end.
Proof.
  intros Hq. pose proof (scan_initial_cases batch) as H.
  assert (Ok : forall st, scan initial_locals batch = inr st ->
                          chat_with_documents q d r batch = inr help_message).
  { intros st Hs. unfold chat_with_documents, analyse.
    destruct batch as [|r0 more]; simpl.
    - now rewrite respond_by_kind, Hq.
    - simpl in Hs. rewrite Hs. simpl. now rewrite respond_by_kind, Hq. }
  destruct (first_category batch) as [[ | | | ]|];
    try (now apply chat_inl); destruct H as (st & Hs); eauto.
Qed.

(** C6, as the code has it: the question "hello" has no topic and gets
    the help message for the empty batch, but for a batch that starts
    with an emergency-power record the call raises instead of
    returning it.  The missing binding of [re] is the same defect that
    C2 shows. *)
Theorem help_message_lost_when_scan_raises :
  classify_question "hello" = AskOther
  /\ chat_with_documents "hello" "" "" [] = inr help_message
  /\ chat_with_documents "hello" "" "" [emergency_72_96; insulation_50_45]
     = inl (UnboundLocalError "re").
Proof. repeat split; vm_compute; reflexivity. Qed.

(** *** The emergency-power topic *)

Lemma digit_value_nonneg (c : ascii) : is_digit c = true -> (0 <= digit_value c)%Z.
Proof.
  unfold is_digit, in_range, digit_value. intros H.
  apply andb_prop in H as [H _]. apply N.leb_le in H. lia.
Qed.

Lemma int_of_digits_from_nonneg (s : string) (acc : Z) :
  all_chars is_digit s = true -> (0 <= acc)%Z -> (0 <= int_of_digits_from acc s)%Z.
Proof.
  revert acc; induction s as [|c s IH]; intros acc H A; simpl in *; [assumption|].
  apply andb_prop in H as [Hc Hs]. apply IH; [assumption|].
  pose proof (digit_value_nonneg c Hc). lia.
Qed.

Lemma int_of_digits_nonneg (s : string) :
  is_digits s = true -> (0 <= int_of_digits s)%Z.
Proof.
  unfold is_digits. intros H. apply andb_prop in H as [_ H].
  now apply int_of_digits_from_nonneg.
Qed.

Lemma float_of_str_inr (s : string) (x : spec_float) :
  float_of_str s = inr x ->
  is_digits s = true /\ x = float_of_Z (int_of_digits s).
Proof.
  unfold float_of_str. destruct (is_digits s); [|discriminate].
  intros [= <-]. now split.
Qed.

(** What the conditional expression for [meets] evaluates to. *)
Lemma meets_text_inr (dh rh m : string) :
  meets_text dh rh = inr m ->
  (m = "meets" /\ dh <> "N/A" /\ rh <> "N/A"
   /\ is_digits dh = true /\ is_digits rh = true
   /\ fge (hours_value dh) (hours_value rh) = true)
  \/ (m = "does not meet"
      /\ (dh = "N/A" \/ rh = "N/A"
          \/ (is_digits dh = true /\ is_digits rh = true
              /\ fge (hours_value dh) (hours_value rh) = false))).
Proof.
  unfold meets_text.
  destruct (String.eqb_spec dh "N/A") as [->|Nd]; simpl.
  { intros [= <-]. right. auto. }
  destruct (String.eqb_spec rh "N/A") as [->|Nr]; simpl.
  { intros [= <-]. right. auto. }
  intros H. apply bind_inr in H as (x & Hx & H).
  apply bind_inr in H as (y & Hy & H).
  apply float_of_str_inr in Hx as [Dx ->]. apply float_of_str_inr in Hy as [Dy ->].
  fold (hours_value dh) (hours_value rh) in H.
  destruct (fge (hours_value dh) (hours_value rh)) eqn:G; injection H as <-.
  - left. repeat split; assumption || reflexivity.
  - right. split; [reflexivity|]. right; right. repeat split; assumption || reflexivity.
Qed.

(** C5, as the code has it: behind an insulation record, a design of
    96 hours and one of 72 hours are said to meet a requirement of 72
    hours, a design of 8 hours is said not to meet it (the two are
    compared as numbers: as strings, "8" is above "72"), and with no
    emergency record both values are "N/A" and the design is said not
    to meet; but for a batch that holds the emergency record alone the
    call raises and states neither.  The scan raises for the unbound
    [re] that C2 shows. *)
Theorem emergency_answer_lost_when_scan_raises :
  let q := "How many hours of emergency power?" in
  classify_question q = AskTopic Emergency
  /\ chat_with_documents q "" "" [emergency_72_96] = inl (UnboundLocalError "re")
  /\ chat_with_documents q "" "" [insulation_50_45; emergency_72_96]
     = inr "The emergency cooling system can operate for 96 hours without external power, which meets the required 72 hours."
  /\ chat_with_documents q "" "" [insulation_50_45; emergency_72_72]
     = inr "The emergency cooling system can operate for 72 hours without external power, which meets the required 72 hours."
  /\ chat_with_documents q "" "" [insulation_50_45; emergency_72_8]
     = inr "The emergency cooling system can operate for 8 hours without external power, which does not meet the required 72 hours."
  /\ chat_with_documents q "" "" [insulation_50_45]
     = inr "The emergency cooling system can operate for N/A hours without external power, which does not meet the required N/A hours.".
Proof. repeat split; vm_compute; reflexivity. Qed.

(** Beyond [2^53] two different integers can parse to the same float:
    [2^53] hours are then reported to meet a requirement of [2^53 + 1]. *)
Example meets_text_beyond_exact_range :
  meets_text "9007199254740992" "9007199254740993" = inr "meets"
  /\ meets_text "9007199254740992" "9007199254740994" = inr "does not meet".
Proof. split; vm_compute; reflexivity. Qed.

(** *** The pump count *)

Lemma lang_digits (g : string) : lang (Plus Digit) g <-> is_digits g = true.
Proof.
  unfold is_digits; simpl. split.
  - intros [N A]. apply andb_true_intro. split; [|exact A].
    apply negb_true_iff. now apply String.eqb_neq.
  - intros H. apply andb_prop in H as [N A]. split; [|exact A].
    apply negb_true_iff in N. now apply String.eqb_neq.
Qed.

Lemma pumps_search_adjacent (s g : string) :
  Re.search pumps_pattern s = Some g -> adjacent g s.
Proof.
  intros H. apply ReFacts.search_sound in H as (pre & t & post & -> & Lg & Lt).
  destruct Lt as (ws & tok & -> & Lws & Ltok). simpl in Lws, Ltok.
  exists pre, ws, tok, post. rewrite ReFacts.append_assoc.
  repeat split; try assumption. now apply lang_digits.
Qed.

Lemma adjacent_pumps_search (s g : string) :
  adjacent g s -> exists g', Re.search pumps_pattern s = Some g'.
Proof.
  intros (pre & ws & tok & post & -> & Dg & Sws & Tok).
  rewrite <- (ReFacts.append_assoc ws tok post).
  apply ReFacts.search_complete.
  - now apply lang_digits.
  - exists ws, tok. repeat split; assumption.
Qed.

Lemma last_found_none (t : topic) (sd : side) (batch : list record) :
  (forall rec, In rec batch -> extract t sd rec = None) ->
  last_found t sd batch = "N/A".
Proof.
  intros H. unfold last_found, found.
  replace (omap (extract t sd) batch) with (@nil string); [reflexivity|].
  induction batch as [|rec more IH]; [reflexivity|]. simpl.
  rewrite (H rec) by now left. apply IH. intros rec' I. apply H. now right.
Qed.

(** The pattern of the pump count finds nothing exactly in the texts
    that have no run of digits right before one of the tokens. *)
Lemma pumps_search_none (s : string) :
  (forall g, ~ adjacent g s) <-> Re.search pumps_pattern s = None.
Proof.
  split.
  - intros H. destruct (Re.search pumps_pattern s) as [g|] eqn:E; [|reflexivity].
    destruct (H g). now apply pumps_search_adjacent.
  - intros H g A. apply adjacent_pumps_search in A as (g' & E). congruence.
Qed.

(** C7, as the code has it: in the scan for the pump count,
    [re.search] returns a number only from a text in which that run of
    digits is followed, through white space alone, by "independent" or
    "separate", and a text with no such run yields no value (a text
    with one does yield a value).  The record whose texts read "3
    pumps, all independent" and "2 pumps" yields no value on either
    side, and behind an insulation record both sides of the answer
    render as "N/A"; but for a batch that holds this record alone the
    call raises and renders nothing.  The scan raises for the unbound
    [re] that C2 shows. *)
Theorem pump_count_slot_lost_when_scan_raises :
  let q := "How many containment pumps are there?" in
  (forall s g, Re.search pumps_pattern s = Some g -> adjacent g s)
  /\ (forall s, (forall g, ~ adjacent g s) <-> Re.search pumps_pattern s = None)
  /\ classify pumps_not_adjacent = Some Pumps
  /\ (forall sd, Re.search pumps_pattern (side_text sd pumps_not_adjacent) = None)
  /\ classify_question q = AskTopic Pumps
  /\ chat_with_documents q "" "" [pumps_not_adjacent] = inl (UnboundLocalError "re")
  /\ chat_with_documents q "" "" [insulation_50_45; pumps_not_adjacent]
     = inr "The containment spray system has N/A pumps, while regulations require minimum N/A pumps."
  /\ chat_with_documents q "" "" [insulation_50_45; pumps_3_2]
     = inr "The containment spray system has 2 pumps, while regulations require minimum 3 pumps.".
Proof.
  split; [exact pumps_search_adjacent|]. split; [exact pumps_search_none|].
  split; [vm_compute; reflexivity|].
  split; [intros [|]; vm_compute; reflexivity|].
  repeat split; vm_compute; reflexivity.
Qed.

Lemma pump_count_slot_lost_when_scan_raises_witness :
  adjacent "3" "the containment spray system must consist of at least 3 independent pumps."
  /\ (forall g, ~ adjacent g "the containment spray system must consist of at least 3 pumps, all independent.").
Proof.
  destruct pump_count_slot_lost_when_scan_raises as (T1 & T2 & _).
  split.
  - exact (T1 "the containment spray system must consist of at least 3 independent pumps."
              "3" eq_refl).
  - exact (proj2 (T2 "the containment spray system must consist of at least 3 pumps, all independent.")
                 eq_refl).
Defined.

(** *** One category per record *)

(** C8: a round of the scan that does not raise changes the values of
    at most one category, the category of the record, which is the
    first keyword test, in the order insulation and thickness, seismic,
    hours and emergency, pumps and containment, that its regulation
    text passes.  A record whose regulation text mentions "seismic",
    "emergency" and "hours" leaves the emergency-power values as they
    were; its category is seismic unless the insulation test, which
    comes first, passes too. *)
Theorem record_contributes_to_one_category
    (st st' : locals) (rec : record) :
  scan_result st rec = inr st' ->
  (forall t sd, classify rec <> Some t -> slot t sd st' = slot t sd st)
  /\ (let text := regulation_text_of rec in
      classify rec =
        if contains "insulation" text && contains "thickness" text then Some Insulation
        else if contains "seismic" text then Some Seismic
        else if contains "hours" text && contains "emergency" text then Some Emergency
        else if contains "pumps" text && contains "containment" text then Some Pumps
        else None)
  /\ (let text := regulation_text_of rec in
      contains "seismic" text = true ->
      contains "emergency" text = true ->
      contains "hours" text = true ->
      (forall sd, slot Emergency sd st' = slot Emergency sd st)
      /\ (forall sd, slot Pumps sd st' = slot Pumps sd st)
      /\ (contains "insulation" text && contains "thickness" text = false ->
          classify rec = Some Seismic
          /\ forall sd, slot Insulation sd st' = slot Insulation sd st)).
Proof.
  intros H.
  assert (Keep : forall t sd, classify rec <> Some t -> slot t sd st' = slot t sd st).
  { intros t sd N. rewrite (scan_result_slot _ _ _ t sd H). unfold extract.
    destruct (classify rec) as [t'|]; [|reflexivity].
    destruct t, t'; simpl; try reflexivity; congruence. }
  split; [exact Keep|]. split; [apply classify_cases|].
  intros text Hs He Hh. pose proof (classify_cases rec) as C.
  fold text in C. simpl in C. rewrite Hs in C.
  split; [|split].
  - intros sd. apply Keep. rewrite C.
    destruct (contains "insulation" text && contains "thickness" text); discriminate.
  - intros sd. apply Keep. rewrite C.
    destruct (contains "insulation" text && contains "thickness" text); discriminate.
  - intros Hi. rewrite Hi in C. split; [exact C|].
    intros sd. apply Keep. rewrite C. discriminate.
Qed.

Lemma record_contributes_to_one_category_witness :
  let st := import_re initial_locals in
  let st' := set_design_seismic "0.25" (set_required_seismic "0.35" st) in
  (forall sd, slot Emergency sd st' = slot Emergency sd st)
  /\ classify seismic_and_emergency = Some Seismic.
Proof.
  pose proof (record_contributes_to_one_category
                (import_re initial_locals)
                (set_design_seismic "0.25"
                   (set_required_seismic "0.35" (import_re initial_locals)))
                seismic_and_emergency eq_refl) as (_ & _ & T).
  destruct (T eq_refl eq_refl eq_refl) as (E & _ & S).
  split; [exact E | exact (proj1 (S eq_refl))].
Defined.

(** *** The only exception *)

Lemma last_In {A} (l : list A) (x : A) : last l = Some x -> In x l.
Proof.
  induction l as [|y l IH]; [discriminate|].
  destruct l as [|z l]; simpl in *; [intros [= ->]; now left|].
  intros H. right. now apply IH.
Qed.

Lemma omap_In {A B} (f : A -> option B) (l : list A) (v : B) :
  In v (omap f l) -> exists x, In x l /\ f x = Some v.
Proof.
  induction l as [|y l IH]; simpl; [intros []|].
  destruct (f y) as [w|] eqn:E.
  - intros [->|I]; [exists y; split; [now left | exact E]|].
    destruct (IH I) as (x & Ix & Ex). exists x. split; [now right | exact Ex].
  - intros I. destruct (IH I) as (x & Ix & Ex). exists x. split; [now right | exact Ex].
Qed.

(** A rendered value is the placeholder or was extracted from a record
    of the batch. *)
Lemma last_found_cases (t : topic) (sd : side) (batch : list record) :
  last_found t sd batch = "N/A"
  \/ exists rec, In rec batch /\ extract t sd rec = Some (last_found t sd batch).
Proof.
  unfold last_found, found.
  destruct (last (omap (extract t sd) batch)) as [v|] eqn:L; [right | now left].
  simpl. apply last_In in L. now apply omap_In in L.
Qed.

Lemma extract_hours_digits (sd : side) (rec : record) (g : string) :
  extract Emergency sd rec = Some g -> is_digits g = true.
Proof.
  unfold extract. destruct (classify rec) as [[ | | | ]|]; simpl; try discriminate.
  intros H. apply ReFacts.search_sound in H as (pre & t & post & _ & Lg & _).
  now apply lang_digits.
Qed.

Lemma meets_text_total (dh rh : string) :
  dh = "N/A" \/ is_digits dh = true ->
  rh = "N/A" \/ is_digits rh = true ->
  exists m, meets_text dh rh = inr m.
Proof.
  intros Hd Hr. unfold meets_text, float_of_str.
  destruct (String.eqb_spec dh "N/A") as [|Nd]; simpl; [eauto|].
  destruct (String.eqb_spec rh "N/A") as [|Nr]; simpl; [eauto|].
  destruct Hd as [? | ->]; [contradiction|]. destruct Hr as [? | ->]; [contradiction|].
  simpl. eauto.
Qed.

(** The call returns a response for every question, unless the first
    record of the batch that has a category is not an insulation
    record; then it raises for the unbound local [re], and this is the
    only exception it raises. *)
Lemma chat_returns_or_unbound_re (q d r : string) (batch : list record) :
  match first_category batch with
  | None | Some Insulation => exists response, chat_with_documents q d r batch = inr response
  | Some _ => chat_with_documents q d r batch = inl (UnboundLocalError "re")
  end.
Proof.
  pose proof (scan_initial_cases batch) as H.
  assert (Ok : forall st, scan initial_locals batch = inr st ->
                          exists response, chat_with_documents q d r batch = inr response).
  { intros st Hs.
    assert (E : chat_with_documents q d r batch
                = respond q (percentage (count_compliant batch) (Z.of_nat (length batch)))
                          (Z.of_nat (length batch) - count_compliant batch) st).
    { unfold chat_with_documents, analyse. destruct batch as [|r0 more].
      - simpl in Hs. injection Hs as <-. reflexivity.
      - rewrite Hs. reflexivity. }
    rewrite E, respond_by_kind.
    destruct (classify_question q) as [|[ | | | ]|]; simpl; eauto.
    change (design_hours st) with (slot Emergency Design st).
    change (required_hours st) with (slot Emergency Requirement st).
    rewrite (scan_initial_slot _ _ Emergency Design Hs),
            (scan_initial_slot _ _ Emergency Requirement Hs).
    destruct (meets_text_total (last_found Emergency Design batch)
                               (last_found Emergency Requirement batch))
      as [m Hm]; [| |rewrite Hm; simpl; eauto].
    - destruct (last_found_cases Emergency Design batch) as [|(rec & _ & X)];
        [now left | right; now apply extract_hours_digits in X].
    - destruct (last_found_cases Emergency Requirement batch) as [|(rec & _ & X)];
        [now left | right; now apply extract_hours_digits in X]. }
  destruct (first_category batch) as [[ | | | ]|];
    try (now apply chat_inl); destruct H as (st & Hs); eauto.
Qed.

(** C10: the outcome of the call is a function of the question and the
    batch alone: the two document texts do not enter it, and two calls
    with the same question and batch agree. *)
Theorem chat_ignores_document_texts
    (q d1 r1 d2 r2 : string) (batch : list record) :
  chat_with_documents q d1 r1 batch = chat_with_documents q d2 r2 batch
  /\ (forall response,
        chat_with_documents q d1 r1 batch = inr response ->
        chat_with_documents q d2 r2 batch = inr response).
Proof. split; [reflexivity | intros response H; exact H]. Qed.

End Responder.

(** ** The benchmark harness *)
Module BenchmarkFacts.
Import Py PyMore Benchmark.

Lemma count_cons {A} (p : A -> bool) (x : A) (l : list A) :
  count p (x :: l) = ((if p x then 1 else 0) + count p l)%Z.
Proof. unfold count. simpl. destruct (p x); simpl; lia. Qed.

Lemma count_nonneg {A} (p : A -> bool) (l : list A) : (0 <= count p l)%Z.
Proof. unfold count. lia. Qed.

Lemma count_map {A B} (f : A -> B) (p : B -> bool) (l : list A) :
  count p (map f l) = count (fun x => p (f x)) l.
Proof.
  induction l as [|x l IH]; [reflexivity|].
  change (map f (x :: l)) with (f x :: map f l). now rewrite !count_cons, IH.
Qed.

Lemma count_ext {A} (p p' : A -> bool) (l : list A) :
  (forall x, p x = p' x) -> count p l = count p' l.
Proof.
  intros E. induction l as [|x l IH]; [reflexivity|].
  now rewrite !count_cons, IH, E.
Qed.

Lemma count_pos {A} (p : A -> bool) (l : list A) (x : A) :
  In x l -> p x = true -> (0 < count p l)%Z.
Proof.
  induction l as [|y l IH]; [intros []|].
  intros [->|I] Hp; rewrite count_cons.
  - rewrite Hp. pose proof (count_nonneg p l). lia.
  - specialize (IH I Hp). destruct (p y); lia.
Qed.

Lemma count_and_le {A} (p p' : A -> bool) (l : list A) :
  (count (fun x => p x && p' x) l <= count p l)%Z.
Proof.
  induction l as [|x l IH]; [reflexivity|].
  rewrite !count_cons. destruct (p x), (p' x); simpl; lia.
Qed.

Lemma correct_cases_from (cases : list CaseResult.t) (acc : Z) :
  fold_left (fun acc case => if get_is_correct case then (acc + 1)%Z else acc)
            cases acc
  = (acc + count get_is_correct cases)%Z.
Proof.
  revert acc; induction cases as [|c cases IH]; intros acc; simpl.
  - unfold count; simpl; lia.
  - rewrite IH, count_cons. destruct (get_is_correct c); lia.
Qed.

(** One round of the loop over the cases: the counters of the case's
    category go up, the others stay. *)
Lemma count_case_lookup (categories : gmap string category_stats)
    (case : CaseResult.t) (c : string) :
  count_case categories case !! c
  = if in_category c case
    then Some (Stats (total (stats_or_new (categories !! c)) + 1)
                     (correct (stats_or_new (categories !! c))
                      + (if get_is_correct case then 1 else 0))
                     (accuracy (stats_or_new (categories !! c))))
    else categories !! c.
Proof.
  unfold count_case, in_category. fold (category_of case).
  destruct (String.eqb_spec (category_of case) c) as [<-|N].
  - destruct (categories !! category_of case) as [s0|] eqn:E;
      destruct (get_is_correct case);
      rewrite ?lookup_alter_eq, ?lookup_insert_eq, ?E; simpl;
      do 2 f_equal; lia.
  - destruct (categories !! category_of case) as [s0|] eqn:E;
      destruct (get_is_correct case);
      rewrite ?lookup_alter_ne, ?lookup_insert_ne by assumption; reflexivity.
Qed.

(** The loop over the cases counts, per category, its cases and its
    correct cases. *)
Lemma fold_count_case (cases : list CaseResult.t)
    (categories : gmap string category_stats) (c : string) :
  fold_left count_case cases categories !! c
  = add_counts (categories !! c)
               (count (in_category c) cases)
               (count (fun case => in_category c case && get_is_correct case) cases).
Proof.
  revert categories; induction cases as [|case cases IH]; intros categories.
  - reflexivity.
  - simpl fold_left. rewrite IH, count_case_lookup, !count_cons.
    pose proof (count_nonneg (in_category c) cases) as P.
    pose proof (count_nonneg
                  (fun case => in_category c case && get_is_correct case) cases) as P'.
    pose proof (count_and_le (in_category c) get_is_correct cases) as Q.
    destruct (in_category c case); simpl andb.
    + unfold add_counts.
      destruct (Z.eqb_spec (1 + count (in_category c) cases) 0) as [|_]; [lia|].
      destruct (Z.eqb_spec (count (in_category c) cases) 0) as [E|_]; simpl;
        do 2 f_equal; lia.
    + cbv iota. now rewrite !Z.add_0_l.
Qed.

(** An integer converts to a float zero only if it is zero. *)
Lemma float_of_Z_is_zero (n : Z) :
  (0 <= n)%Z -> (is_zero (float_of_Z n) = true <-> n = 0%Z).
Proof.
  intros N. destruct n as [|p|p]; [now split | | lia].
  split; [|discriminate].
  destruct (FloatFacts.float_represents p) as [(_ & m & e & -> & _)|(_ & ->)];
    discriminate.
Qed.

(** The two divisions of the [performance] entry raise exactly for no
    test case or a zero elapsed time. *)
Lemma measure_cases (total_time : spec_float) (len : nat) :
  let n := float_of_Z (Z.of_nat len) in
  measure total_time (Z.of_nat len)
  = if is_zero n || is_zero total_time
    then inl ZeroDivisionError
    else inr (Performance total_time (fdiv total_time n) (fdiv n total_time)).
Proof.
  intros n. unfold measure, truediv. fold n.
  destruct (is_zero n); [reflexivity|].
  destruct (is_zero total_time); reflexivity.
Qed.

Lemma length_is_zero {A} (l : list A) :
  is_zero (float_of_Z (Z.of_nat (length l))) = true <-> l = [].
Proof.
  rewrite float_of_Z_is_zero by lia.
  destruct l; simpl; split; intros H; try reflexivity; try discriminate; lia.
Qed.

Section Scoring.

Variable check_compliance : string -> string -> result (gmap string string).

Lemma run_case_category (tc : TestCase.t) :
  category_of (run_case check_compliance tc) = TestCase.category tc.
Proof.
  unfold run_case.
  destruct (check_compliance (TestCase.design tc) (TestCase.regulation tc));
    reflexivity.
Qed.

Lemma run_case_correct (tc : TestCase.t) :
  get_is_correct (run_case check_compliance tc) = true <->
  exists result,
    check_compliance (TestCase.design tc) (TestCase.regulation tc) = inr result
    /\ default "Unknown" (result !! "compliance_status")
       = TestCase.expected_status tc.
Proof.
  unfold run_case.
  destruct (check_compliance (TestCase.design tc) (TestCase.regulation tc))
    as [e|result]; unfold get_is_correct; simpl.
  - split; [discriminate | intros (result & H & _); discriminate].
  - rewrite String.eqb_eq. split.
    + intros H. exists result. now split.
    + intros (result' & [= <-] & H). exact H.
Qed.

(** C9: a test case is scored correct exactly when the checker
    returned a result whose [compliance_status] (read as "Unknown"
    when the result has none) equals the expected status of the case;
    the summary that [_calculate_summary_metrics] gives for the scored
    cases reports the number of cases, the number of correct ones, the
    overall accuracy [correct / total * 100] (the integer 0 when
    there are no cases) and, for every category among the test cases,
    its number of cases, of correct cases, and the accuracy
    [correct / total * 100] of the category.  A run of
    [run_compliance_benchmark] returns these cases and this summary,
    unless it raises for a division by zero in the [performance] entry
    that it computes after the summary: this it does exactly when there
    is no test case or no time has elapsed. *)
Theorem benchmark_scores_and_summarises (test_cases : list TestCase.t) :
  let scored := fun tc => get_is_correct (run_case check_compliance tc) in
  let of_category := fun c tc => String.eqb (TestCase.category tc) c in
  let cases := map (run_case check_compliance) test_cases in
  let s := _calculate_summary_metrics cases in
  (forall tc,
      scored tc = true <->
      exists result,
        check_compliance (TestCase.design tc) (TestCase.regulation tc) = inr result
        /\ default "Unknown" (result !! "compliance_status")
           = TestCase.expected_status tc)
  /\ total_test_cases s = Z.of_nat (length test_cases)
  /\ correct_predictions s = count scored test_cases
  /\ overall_accuracy s
     = match test_cases with
       | [] => PInt 0
       | _ :: _ =>
           PFloat (fmul (fdiv (float_of_Z (count scored test_cases))
                              (float_of_Z (Z.of_nat (length test_cases))))
                        (float_of_Z 100))
       end
  /\ (forall c,
        In c (map TestCase.category test_cases) ->
        let n := count (of_category c) test_cases in
        let k := count (fun tc => of_category c tc && scored tc) test_cases in
        category_performance s !! c
        = Some (Stats n k
                      (Some (PFloat (fmul (fdiv (float_of_Z k) (float_of_Z n))
                                          (float_of_Z 100))))))
  /\ (forall total_time,
        match run_compliance_benchmark check_compliance test_cases total_time with
        | inr (cases', s', _) =>
            cases' = cases /\ s' = s
            /\ test_cases <> [] /\ is_zero total_time = false
        | inl e =>
            e = ZeroDivisionError
            /\ (test_cases = [] \/ is_zero total_time = true)
        end).
Proof.
  intros scored of_category cases s.
  assert (Correct : correct_predictions s = count scored test_cases).
  { unfold s, cases, _calculate_summary_metrics; simpl.
    rewrite correct_cases_from, count_map. reflexivity. }
  split; [exact run_case_correct|].
  split; [unfold s, cases; simpl; now rewrite length_map|].
  split; [exact Correct|]. split; [|split].
  - unfold s, cases, _calculate_summary_metrics in *; simpl in *.
    rewrite Correct, length_map. unfold accuracy_of.
    destruct test_cases as [|tc more]; [reflexivity|].
    destruct (0 <? Z.of_nat (length (tc :: more)))%Z eqn:E; [reflexivity|].
    apply Z.ltb_ge in E. simpl in E. lia.
  - intros c I n k.
    unfold s, cases, _calculate_summary_metrics; simpl.
    rewrite lookup_fmap, fold_count_case, lookup_empty, !count_map.
    rewrite (count_ext _ (of_category c))
      by (intros tc; unfold in_category; now rewrite run_case_category).
    rewrite (count_ext (fun tc => in_category c (run_case check_compliance tc)
                                  && get_is_correct (run_case check_compliance tc))
                       (fun tc => of_category c tc && scored tc))
      by (intros tc; unfold in_category; now rewrite run_case_category).
    fold n k.
    assert (Pn : (0 < n)%Z).
    { apply in_map_iff in I as (tc & <- & I).
      apply (count_pos _ _ tc I). unfold of_category. apply String.eqb_refl. }
    unfold add_counts. destruct (Z.eqb_spec n 0) as [|_]; [lia|].
    simpl. unfold with_accuracy, accuracy_of; simpl.
    destruct (0 <? 0 + n)%Z eqn:E; [|apply Z.ltb_ge in E; lia].
    now rewrite !Z.add_0_l.
  - intros total_time. unfold run_compliance_benchmark.
    rewrite measure_cases. fold cases. fold s.
    pose proof (length_is_zero test_cases) as Zn.
    destruct (is_zero (float_of_Z (Z.of_nat (length test_cases)))) eqn:En; simpl.
    + split; [reflexivity|]. left. now apply Zn.
    + destruct (is_zero total_time) eqn:Et; simpl.
      * split; [reflexivity|]. now right.
      * repeat split. intros E. apply Zn in E. discriminate.
Qed.

End Scoring.

(** A check that raises is scored as incorrect and its message is kept
    in the [error] entry. *)
Example benchmark_when_checker_raises :
  let cases := map (run_case always_raises) _load_test_cases in
  let s := _calculate_summary_metrics cases in
  correct_predictions s = 0%Z
  /\ format_1f (overall_accuracy s) = "0.0"
  /\ map CaseResult.error cases
     = repeat (Some "Design text and regulation text must be provided") 6.
Proof. vm_compute. repeat split. Qed.

Lemma benchmark_scores_and_summarises_witness :
  let s := _calculate_summary_metrics
             (map (run_case always_non_compliant) _load_test_cases) in
  total_test_cases s = 6%Z
  /\ correct_predictions s = 4%Z
  /\ format_1f (overall_accuracy s) = "66.7"
  /\ (exists st, category_performance s !! "material_specifications" = Some st
                 /\ total st = 2%Z /\ correct st = 1%Z
                 /\ option_map format_1f (accuracy st) = Some "50.0")
  /\ (exists perf,
        run_compliance_benchmark always_non_compliant _load_test_cases (float_of_Z 2)
        = inr (map (run_case always_non_compliant) _load_test_cases, s, perf))
  /\ run_compliance_benchmark always_non_compliant [] (float_of_Z 2)
     = inl ZeroDivisionError.
Proof.
  pose proof (benchmark_scores_and_summarises always_non_compliant _load_test_cases)
    as (_ & T & C & A & P & R).
  split; [exact T|]. split; [exact C|]. split; [rewrite A; reflexivity|].
  split; [|split].
  - eexists. split; [apply P; vm_compute; tauto|].
    repeat split.
  - specialize (R (float_of_Z 2)).
    destruct (run_compliance_benchmark always_non_compliant _load_test_cases
                                       (float_of_Z 2)) as [e|[[cases' s'] perf]].
    + destruct R as (_ & [E|E]); discriminate E.
    + destruct R as (-> & -> & _). exists perf. reflexivity.
  - pose proof (benchmark_scores_and_summarises always_non_compliant []) as (_ & _ & _ & _ & _ & R0).
    specialize (R0 (float_of_Z 2)).
    destruct (run_compliance_benchmark always_non_compliant [] (float_of_Z 2))
      as [e|[[cases' s'] perf]].
    + destruct R0 as (-> & _). reflexivity.
    + destruct R0 as (_ & _ & N & _). now destruct N.
Defined.

End BenchmarkFacts.

(** ** The comparator *)
Module ComparatorFacts.
Import Comparator.

Lemma member_In (g : string) (families : list string) :
  member g families = true <-> In g families.
Proof.
  unfold member. rewrite existsb_exists. split.
  - intros (x & I & E). apply String.eqb_eq in E. now subst x.
  - intros I. exists g. split; [exact I | apply String.eqb_refl].
Qed.

(** C1: for the four numeric categories and claims present on both
    sides, the verdict is Compliant exactly when the design value is
    greater than or equal to the required value, an equal value
    included, and Non-Compliant otherwise; for the material category
    it is Compliant exactly when the design's grade family is among
    the accepted families, and Non-Compliant otherwise. *)
Theorem comparator_verdict :
  (forall cat design_claim requirement_claim dv rv,
      numeric cat = true ->
      value design_claim = Number dv ->
      value requirement_claim = Number rv ->
      (compare cat design_claim requirement_claim = Compliant <-> (rv <= dv)%Q)
      /\ (compare cat design_claim requirement_claim = NonCompliant
          <-> ~ (rv <= dv)%Q)
      /\ ((dv == rv)%Q -> compare cat design_claim requirement_claim = Compliant))
  /\ (forall design_claim requirement_claim family accepted,
         value design_claim = Grade family ->
         value requirement_claim = GradeSet accepted ->
         (compare MaterialGrade design_claim requirement_claim = Compliant
          <-> In family accepted)
         /\ (compare MaterialGrade design_claim requirement_claim = NonCompliant
             <-> ~ In family accepted)).
Proof.
  split.
  - intros cat d r dv rv N Hd Hr.
    assert (E : compare cat d r
                = if Qle_bool rv dv then Compliant else NonCompliant).
    { destruct cat; try discriminate N; simpl; now rewrite Hd, Hr. }
    rewrite E. pose proof (Qle_bool_iff rv dv) as B.
    destruct (Qle_bool rv dv).
    + assert (L : (rv <= dv)%Q) by now apply B.
      split; [tauto|]. split; [|reflexivity].
      split; [discriminate | tauto].
    + assert (L : ~ (rv <= dv)%Q) by (intros L; apply B in L; discriminate).
      split; [split; [discriminate | tauto]|]. split; [tauto|].
      intros Q. exfalso. apply L. rewrite Q. apply Qle_refl.
  - intros d r family accepted Hd Hr. simpl. rewrite Hd, Hr.
    pose proof (member_In family accepted) as M.
    destruct (member family accepted).
    + assert (I : In family accepted) by now apply M.
      split; [tauto|]. split; [discriminate | tauto].
    + assert (I : ~ In family accepted) by (intros I; apply M in I; discriminate).
      split; [split; [discriminate | tauto] | tauto].
Qed.

Lemma comparator_verdict_witness :
  let thickness q := Claim InsulationThickness "" (Number (inject_Z q)) "mm" in
  compare InsulationThickness (thickness 50%Z) (thickness 50%Z) = Compliant
  /\ compare InsulationThickness (thickness 45%Z) (thickness 50%Z) = NonCompliant
  /\ compare MaterialGrade
             (Claim MaterialGrade "316L stainless steel" (Grade "300-series") "")
             (Claim MaterialGrade "300-series stainless steel or equivalent"
                    (GradeSet ["300-series"; "duplex"]) "")
     = Compliant.
Proof.
  destruct comparator_verdict as [N M].
  split; [|split].
  - apply (N InsulationThickness
             (Claim InsulationThickness "" (Number (inject_Z 50)) "mm")
             (Claim InsulationThickness "" (Number (inject_Z 50)) "mm")
             (inject_Z 50) (inject_Z 50) eq_refl eq_refl eq_refl).
    reflexivity.
  - apply (N InsulationThickness
             (Claim InsulationThickness "" (Number (inject_Z 45)) "mm")
             (Claim InsulationThickness "" (Number (inject_Z 50)) "mm")
             (inject_Z 45) (inject_Z 50) eq_refl eq_refl eq_refl).
    intros L. apply Qle_bool_iff in L. discriminate L.
  - apply (M (Claim MaterialGrade "316L stainless steel" (Grade "300-series") "")
             (Claim MaterialGrade "300-series stainless steel or equivalent"
                    (GradeSet ["300-series"; "duplex"]) "")
             "300-series" ["300-series"; "duplex"] eq_refl eq_refl).
    now left.
Defined.

End ComparatorFacts.

(** ** The score at its two ends *)
Module FloatMore.
Import Py FloatFacts.
#[local] Open Scope Z_scope.

Lemma fdiv_self (m : positive) (e : Z) :
  Zpos (digits2_pos m) = 53 ->
  fdiv (S754_finite false m e) (S754_finite false m e) = S754_finite false 4503599627370496 (-52).
Proof.
  intros D. unfold fdiv, SFdiv, SFdiv_core_binary. simpl Zdigits2. rewrite D.
  replace (53 + e - (53 + e)) with 0 by lia.
  replace (e - e) with 0 by lia.
  change (Z.min (fexp prec emax 0) 0) with (-53).
  change (0 - -53) with 53.
  assert (E : Z.div_eucl (Z.shiftl (Zpos m) 53) (Zpos m) = (2 ^ 53, 0)).
  { rewrite Z.shiftl_mul_pow2 by lia.
    pose proof (Z.div_mul (2 ^ 53) (Zpos m) ltac:(lia)) as Q.
    pose proof (Z.mod_mul (2 ^ 53) (Zpos m) ltac:(lia)) as R.
    rewrite (Z.mul_comm (Zpos m)).
    unfold Z.div, Z.modulo in Q, R.
    destruct (Z.div_eucl (2 ^ 53 * Zpos m) (Zpos m)) as [q r]. now subst. }
  cbv iota.
  change (IntDef.Z.div_eucl (IntDef.Z.shiftl (Zpos m) 53) (Zpos m))
    with (Z.div_eucl (Z.shiftl (Zpos m) 53) (Zpos m)).
  rewrite E.
  assert (L : new_location (Zpos m) 0 = loc_Exact).
  { unfold new_location, new_location_even, new_location_odd.
    now destruct (Z.even (Zpos m)). }
  rewrite L. reflexivity.
Qed.

Lemma float_of_pos_small (p : positive) :
  Zpos p < 2 ^ 53 ->
  exists m e, float_of_Z (Zpos p) = S754_finite false m e /\ Zpos (digits2_pos m) = 53.
Proof.
  intros Hp. destruct (float_represents p) as [(_ & m & e & E & D & _)|(V & _)].
  - eauto.
  - exfalso. unfold rounded in V.
    pose proof (digits_le_53 p Hp) as Dp. apply Z.leb_le in Dp. rewrite Dp in V.
    assert (2 ^ 53 <= 2 ^ 1024) by (apply Z.pow_le_mono_r; lia). lia.
Qed.

Lemma hundred_percent (n : Z) :
  0 < n < 2 ^ 53 ->
  format_1f (PFloat (fmul (fdiv (float_of_Z n) (float_of_Z n)) (float_of_Z 100)))
  = "100.0"%string.
Proof.
  intros [N B]. destruct n as [|p|p]; try lia.
  destruct (float_of_pos_small p B) as (m & e & -> & D).
  rewrite fdiv_self by assumption. reflexivity.
Qed.

Lemma zero_percent (n : Z) :
  0 < n ->
  format_1f (PFloat (fmul (fdiv (float_of_Z 0) (float_of_Z n)) (float_of_Z 100)))
  = "0.0"%string.
Proof.
  intros N. destruct n as [|p|p]; try lia.
  destruct (float_represents p) as [(_ & m & e & -> & _)|(_ & ->)]; reflexivity.
Qed.

End FloatMore.

(** ** More on the query responder *)
Module ResponderMore.
Import Py Re App AppMore ScanFacts Samples Responder.
#[local] Arguments String.append !_ _ / : simpl nomatch.

(** The call, once the scan has returned. *)
Lemma chat_of_scan (q d r : string) (batch : list record) (st : locals) :
  scan initial_locals batch = inr st ->
  chat_with_documents q d r batch
  = respond q (percentage (count_compliant batch) (Z.of_nat (length batch)))
            (Z.of_nat (length batch) - count_compliant batch) st.
Proof.
  intros Hs. unfold chat_with_documents, analyse. destruct batch as [|r0 more].
  - simpl in Hs. injection Hs as <-. reflexivity.
  - rewrite Hs. reflexivity.
Qed.

(** X1: the call raises exactly when the first record of the batch
    that has a category is not an insulation record, and the exception
    is then the unbound local [re]; for every other batch, and every
    question, it returns a response. *)
Theorem chat_raises_exactly_for_unbound_re
    (q d r : string) (batch : list record) :
  (forall e, chat_with_documents q d r batch = inl e -> e = UnboundLocalError "re")
  /\ ((exists e, chat_with_documents q d r batch = inl e)
      <-> exists t, first_category batch = Some t /\ t <> Insulation)
  /\ ((exists response, chat_with_documents q d r batch = inr response)
      <-> first_category batch = None \/ first_category batch = Some Insulation).
Proof.
  pose proof (chat_returns_or_unbound_re q d r batch) as H.
  destruct (first_category batch) as [[ | | | ]|] eqn:F.
  1, 5: destruct H as (response & H); rewrite H; split; [discriminate|]; split;
    [ split; [intros (e & E); discriminate | intros (t & E & N); congruence]
    | split; [intros _; auto | intros _; eauto] ].
  all: rewrite H; split; [now intros e [= <-]|]; split;
    [ split; [intros _; eexists; split; [reflexivity | discriminate] | eauto]
    | split; [intros (response & E); discriminate | intros [E|E]; discriminate] ].
Qed.

(** *** Composition of the scan *)

Lemma scan_app (b1 b2 : list record) (st : locals) :
  scan st (b1 ++ b2)%list = let* st1 := scan st b1 in scan st1 b2.
Proof.
  revert st; induction b1 as [|r0 b1 IH]; intros st; simpl; [reflexivity|].
  destruct (scan_result st r0) as [e|st0]; simpl; [reflexivity | apply IH].
Qed.

Lemma found_app (t : topic) (sd : side) (b1 b2 : list record) :
  found t sd (b1 ++ b2)%list = (found t sd b1 ++ found t sd b2)%list.
Proof. apply omap_app. Qed.

(** The answer to a question on a topic reads the two values of the
    topic and nothing else of the locals. *)
Lemma respond_topic_slots (q : string) (t : topic)
    (score score' : num) (issues issues' : Z) (st st' : locals) :
  classify_question q = AskTopic t ->
  slot t Design st = slot t Design st' ->
  slot t Requirement st = slot t Requirement st' ->
  respond q score issues st = respond q score' issues' st'.
Proof.
  intros Hq Hd Hr. rewrite !respond_by_kind, Hq.
  destruct t; simpl in *; now rewrite Hd, Hr.
Qed.

(** X2: records added at the end of a batch that yield no value for a
    topic, on either side, do not change the answer to a question on
    that topic: the response for the longer batch is the response for
    the shorter one. *)
Theorem later_records_without_value_keep_answer
    (q d r : string) (b1 b2 : list record) (t : topic) (response : string) :
  classify_question q = AskTopic t ->
  found t Design b2 = [] ->
  found t Requirement b2 = [] ->
  chat_with_documents q d r (b1 ++ b2)%list = inr response ->
  chat_with_documents q d r b1 = inr response.
Proof.
  intros Hq Fd Fr H.
  apply chat_inr in H as (st & Hs & H).
  rewrite scan_app in Hs. apply bind_inr in Hs as (st1 & Hs1 & Hs2).
  rewrite (chat_of_scan q d r b1 st1 Hs1), <- H.
  apply (respond_topic_slots q t); [exact Hq | |].
  - rewrite (scan_slot _ _ _ t Design Hs2), Fd. reflexivity.
  - rewrite (scan_slot _ _ _ t Requirement Hs2), Fr. reflexivity.
Qed.

Lemma later_records_without_value_keep_answer_witness :
  chat_with_documents "How thick is the insulation?" "" "" [insulation_50_45]
  = inr (responses_insulation "45" "50").
Proof.
  exact (later_records_without_value_keep_answer
           "How thick is the insulation?" "" ""
           [insulation_50_45] [seismic_035_025; pumps_words] Insulation _
           eq_refl eq_refl eq_refl eq_refl).
Defined.

(** *** Letter case *)

Lemma lower_char_idempotent (c : ascii) : lower_char (lower_char c) = lower_char c.
Proof. destruct c as [[] [] [] [] [] [] [] []]; vm_compute; reflexivity. Qed.

Lemma lower_idempotent (s : string) : lower (lower s) = lower s.
Proof.
  induction s as [|c s IH]; simpl; [reflexivity|].
  now rewrite lower_char_idempotent, IH.
Qed.

(** X3: the answer does not depend on the letter case of the question:
    the question in lower case gets the outcome of the question as
    typed. *)
Theorem question_case_is_ignored (q d r : string) (batch : list record) :
  chat_with_documents (lower q) d r batch = chat_with_documents q d r batch.
Proof.
  unfold chat_with_documents.
  destruct (analyse batch) as [e|[[score issues] st]]; simpl; [reflexivity|].
  unfold respond. now rewrite lower_idempotent.
Qed.

Lemma lowered_texts (rec : record) :
  regulation_text_of (lowered rec) = regulation_text_of rec
  /\ design_text_lower_of (lowered rec) = design_text_lower_of rec
  /\ is_compliant (lowered rec) = is_compliant rec.
Proof.
  unfold lowered, regulation_text_of, design_text_lower_of, is_compliant.
  rewrite lookup_insert_eq.
  rewrite (lookup_insert_ne _ "regulation_text" "design_text") by discriminate.
  rewrite lookup_insert_eq.
  rewrite !(lookup_insert_ne _ _ "compliance_status") by discriminate.
  simpl. now rewrite !lower_idempotent.
Qed.

Lemma scan_result_lowered (st : locals) (rec : record) :
  scan_result st (lowered rec) = scan_result st rec.
Proof.
  destruct (lowered_texts rec) as (Hr & Hd & _).
  unfold scan_result. now rewrite Hr, Hd.
Qed.

Lemma scan_lowered (batch : list record) (st : locals) :
  scan st (map lowered batch) = scan st batch.
Proof.
  revert st; induction batch as [|rec more IH]; intros st; [reflexivity|].
  change (map lowered (rec :: more)) with (lowered rec :: map lowered more).
  simpl. rewrite scan_result_lowered.
  destruct (scan_result st rec); simpl; [reflexivity | apply IH].
Qed.

Lemma count_compliant_lowered (batch : list record) :
  count_compliant (map lowered batch) = count_compliant batch.
Proof.
  rewrite !count_compliant_filter. f_equal.
  induction batch as [|rec more IH]; [reflexivity|].
  change (map lowered (rec :: more)) with (lowered rec :: map lowered more).
  simpl. destruct (lowered_texts rec) as (_ & _ & ->).
  destruct (is_compliant rec); simpl; now rewrite IH.
Qed.

(** X4: the texts of the records are read in lower case only: a batch
    whose regulation and design texts are replaced by their lower-case
    forms gets the same outcome, for every question. *)
Theorem record_case_is_ignored (q d r : string) (batch : list record) :
  chat_with_documents q d r (map lowered batch) = chat_with_documents q d r batch.
Proof.
  unfold chat_with_documents, analyse.
  destruct batch as [|rec more]; [reflexivity|].
  change (map lowered (rec :: more)) with (lowered rec :: map lowered more).
  change (lowered rec :: map lowered more) with (map lowered (rec :: more)).
  cbv zeta. rewrite scan_lowered, count_compliant_lowered, length_map.
  reflexivity.
Qed.

(** *** The numbers the scan captures *)

(** The leftmost match of a pattern whose group is a run of digits
    starts at the first digit of a number. *)
Lemma search_whole_number (p : pattern) (s g : string) :
  group1 p = Plus Digit ->
  search p s = Some g ->
  exists pre t post,
    s = pre +:+ (g +:+ (t +:+ post))
    /\ lang (Plus Digit) g /\ lang (rest p) t
    /\ ends_with_digit pre = false.
Proof.
  intros G. induction s as [|c s IH]; simpl.
  - destruct (match_here p "") eqn:E; [|discriminate]. intros [= ->].
    destruct (ReFacts.match_here_sound _ _ _ E) as (t & post & E1 & Lg & Lt).
    rewrite G in Lg. exists "", t, post. auto.
  - destruct (match_here p (String c s)) eqn:E.
    + intros [= ->].
      destruct (ReFacts.match_here_sound _ _ _ E) as (t & post & E1 & Lg & Lt).
      rewrite G in Lg. exists "", t, post. auto.
    + intros H. destruct (IH H) as (pre & t & post & -> & Lg & Lt & P).
      exists (String c pre), t, post.
      split; [reflexivity|]. split; [exact Lg|]. split; [exact Lt|].
      destruct pre as [|c' pre']; [|exact P]. simpl.
      destruct (is_digit c) eqn:Dc; [|reflexivity]. exfalso.
      assert (Lcg : lang (group1 p) (String c g)).
      { rewrite G. destruct Lg as [_ A]. split; [discriminate|].
        simpl. now rewrite Dc. }
      destruct (ReFacts.match_here_complete p (String c g) t post Lcg Lt)
        as (g' & E').
      simpl in E, E'. congruence.
Qed.

Lemma number_before_search (p : pattern) (unit s g : string) :
  group1 p = Plus Digit ->
  rest p = Seq (Star Space) (Lit unit) ->
  search p s = Some g -> number_before unit g s.
Proof.
  intros G R H.
  destruct (search_whole_number p s g G H) as (pre & t & post & -> & Lg & Lt & P).
  rewrite R in Lt. destruct Lt as (ws & u & -> & Lws & ->). simpl in Lws.
  exists pre, ws, post. rewrite ReFacts.append_assoc.
  repeat split; try assumption. now apply lang_digits.
Qed.

Lemma search_number_before (p : pattern) (unit s g : string) :
  group1 p = Plus Digit ->
  rest p = Seq (Star Space) (Lit unit) ->
  number_before unit g s -> exists g', search p s = Some g'.
Proof.
  intros G R (pre & ws & post & -> & Dg & Sws & _).
  rewrite <- (ReFacts.append_assoc ws unit post).
  apply ReFacts.search_complete.
  - rewrite G. now apply lang_digits.
  - rewrite R. exists ws, unit. repeat split; assumption.
Qed.

(** X5: the thickness and the hours the scan captures are whole
    numbers of the text: the captured run of digits stands right
    before "mm" (resp. "hours"), with nothing but white space in
    between, and the character before it is not a digit, so a tail of
    a longer number is never taken; a text with no digits so placed
    yields no value, and every other text yields one. *)
Theorem captured_number_is_whole (s : string) :
  (forall g, search thickness_pattern s = Some g -> number_before "mm" g s)
  /\ (search thickness_pattern s = None <-> forall g, ~ number_before "mm" g s)
  /\ (forall g, search hours_pattern s = Some g -> number_before "hours" g s)
  /\ (search hours_pattern s = None <-> forall g, ~ number_before "hours" g s).
Proof.
  assert (Gen : forall p unit,
             group1 p = Plus Digit -> rest p = Seq (Star Space) (Lit unit) ->
             (forall g, search p s = Some g -> number_before unit g s)
             /\ (search p s = None <-> forall g, ~ number_before unit g s)).
  { intros p unit G R. split; [intros g; now apply number_before_search|]. split.
    - intros N g A. apply (search_number_before p unit s g G R) in A as (g' & E).
      congruence.
    - intros N. destruct (search p s) as [g|] eqn:E; [|reflexivity].
      destruct (N g). now apply (number_before_search p unit s g G R). }
  destruct (Gen thickness_pattern "mm" eq_refl eq_refl) as [T1 T2].
  destruct (Gen hours_pattern "hours" eq_refl eq_refl) as [H1 H2].
  auto.
Qed.

Lemma captured_number_is_whole_witness :
  number_before "mm" "150" "a pipe of 150mm carries insulation of 50 mm"
  /\ number_before "hours" "72" "at least 72 hours".
Proof.
  split.
  - exact (proj1 (captured_number_is_whole
                    "a pipe of 150mm carries insulation of 50 mm")
                 "150" eq_refl).
  - exact (proj1 (proj2 (proj2 (captured_number_is_whole "at least 72 hours")))
                 "72" eq_refl).
Defined.

Lemma seismic_search_decimal (s g : string) :
  search seismic_pattern s = Some g -> decimal_before_g g s.
Proof.
  intros H. apply ReFacts.search_sound in H as (pre & t & post & -> & Lg & Lt).
  simpl in Lt. subst t.
  destruct Lg as (a & w & -> & La & (w3 & b & -> & -> & Lb)).
  exists pre, a, b, post. repeat split; now apply lang_digits.
Qed.

Lemma decimal_seismic_search (s g : string) :
  decimal_before_g g s -> exists g', search seismic_pattern s = Some g'.
Proof.
  intros (pre & a & b & post & -> & -> & Da & Db).
  apply ReFacts.search_complete; simpl.
  - exists a, ("." +:+ b). split; [reflexivity|]. split; [now apply lang_digits|].
    exists ".", b. repeat split; now apply lang_digits.
  - reflexivity.
Qed.

(** X6: the seismic value the scan captures is a decimal number with
    digits on both sides of its point, written right before the letter
    g; a text with no such number (a whole number of g, or a space
    before the g) yields no value, and every text with one yields a
    value. *)
Theorem seismic_value_needs_decimal_point (s : string) :
  (forall g, search seismic_pattern s = Some g -> decimal_before_g g s)
  /\ (search seismic_pattern s = None <-> forall g, ~ decimal_before_g g s).
Proof.
  split; [intros g; apply seismic_search_decimal|]. split.
  - intros N g A. apply decimal_seismic_search in A as (g' & E). congruence.
  - intros N. destruct (search seismic_pattern s) as [g|] eqn:E; [|reflexivity].
    destruct (N g). now apply seismic_search_decimal.
Qed.

Lemma seismic_value_needs_decimal_point_witness :
  decimal_before_g "0.35" "a minimum intensity of 0.35g is mandatory"
  /\ (forall g, ~ decimal_before_g g "a minimum intensity of 1g is mandatory")
  /\ (forall g, ~ decimal_before_g g "a minimum intensity of 0.35 g is mandatory").
Proof.
  split; [|split].
  - exact (proj1 (seismic_value_needs_decimal_point
                    "a minimum intensity of 0.35g is mandatory") "0.35" eq_refl).
  - exact (proj1 (proj2 (seismic_value_needs_decimal_point
                           "a minimum intensity of 1g is mandatory")) eq_refl).
  - exact (proj1 (proj2 (seismic_value_needs_decimal_point
                           "a minimum intensity of 0.35 g is mandatory")) eq_refl).
Defined.

(** *** The score *)

Lemma filter_none {A} (f : A -> bool) (l : list A) :
  (forall x, In x l -> f x = false) -> List.filter f l = [].
Proof.
  induction l as [|x l IH]; intros H; [reflexivity|]. simpl.
  rewrite (H x) by now left. apply IH. intros y I. apply H. now right.
Qed.

Lemma filter_all {A} (f : A -> bool) (l : list A) :
  (forall x, In x l -> f x = true) -> List.filter f l = l.
Proof.
  induction l as [|x l IH]; intros H; [reflexivity|]. simpl.
  rewrite (H x) by now left. f_equal. apply IH. intros y I. apply H. now right.
Qed.

(** X7: when no record of the batch is compliant the response to a
    question on compliance reads 0.0% with as many issues as records,
    and when every record of a non-empty batch is compliant it reads
    100.0% with 0 issues. *)
Theorem score_at_its_ends
    (q d r : string) (batch : list record) (response : string) :
  classify_question q = AskCompliance ->
  chat_with_documents q d r batch = inr response ->
  ((forall rec, In rec batch -> is_compliant rec = false) ->
   response = responses_compliance "0.0" (str_of_Z (Z.of_nat (length batch))))
  /\ (batch <> [] -> (Z.of_nat (length batch) < 2 ^ 53)%Z ->
      (forall rec, In rec batch -> is_compliant rec = true) ->
      response = responses_compliance "100.0" "0").
Proof.
  intros Hq H. apply chat_inr in H as (st & _ & H).
  rewrite respond_by_kind, Hq, count_compliant_filter in H. injection H as <-.
  split.
  - intros N. rewrite (filter_none _ _ N). simpl length.
    rewrite Z.sub_0_r. f_equal. unfold percentage.
    destruct (0 <? Z.of_nat (length batch))%Z eqn:P; [|reflexivity].
    apply Z.ltb_lt in P. now apply FloatMore.zero_percent.
  - intros Ne B A. rewrite (filter_all _ _ A), Z.sub_diag.
    assert (P : (0 < Z.of_nat (length batch))%Z)
      by (destruct batch; [congruence | simpl; lia]).
    unfold percentage. destruct (0 <? Z.of_nat (length batch))%Z eqn:P';
      [|apply Z.ltb_ge in P'; lia].
    rewrite FloatMore.hundred_percent by lia. reflexivity.
Qed.

Lemma score_at_its_ends_witness :
  "Based on the analysis, the overall compliance score is 0.0%. 2 issues were found."
  = responses_compliance "0.0" (str_of_Z (Z.of_nat 2))
  /\ "Based on the analysis, the overall compliance score is 100.0%. 0 issues were found."
     = responses_compliance "100.0" "0".
Proof.
  split.
  - apply (score_at_its_ends "What is the compliance score?" "" ""
             [insulation_50_45; seismic_035_025] _ eq_refl eq_refl).
    intros rec [<-|[<-|[]]]; reflexivity.
  - apply (score_at_its_ends "What is the compliance score?" "" ""
             [SamplesMore.insulation_50_55; emergency_72_72] _ eq_refl).
    + vm_compute. reflexivity.
    + discriminate.
    + vm_compute. reflexivity.
    + intros rec [<-|[<-|[]]]; reflexivity.
Defined.

Lemma filter_length_permutation {A} (f : A -> bool) (l l' : list A) :
  Permutation l l' -> length (List.filter f l) = length (List.filter f l').
Proof.
  induction 1 as [|x l l' _ IH|x y l|l l' l'' _ IH1 _ IH2]; simpl.
  - reflexivity.
  - destruct (f x); simpl; now rewrite IH.
  - destruct (f x), (f y); reflexivity.
  - now rewrite IH1.
Qed.

(** X8: the answer to a question on compliance does not depend on the
    order of the batch: two orders of the same records that both get a
    response get the same response. *)
Theorem score_ignores_batch_order
    (q d r : string) (b1 b2 : list record) (r1 r2 : string) :
  Permutation b1 b2 ->
  classify_question q = AskCompliance ->
  chat_with_documents q d r b1 = inr r1 ->
  chat_with_documents q d r b2 = inr r2 ->
  r1 = r2.
Proof.
  intros P Hq H1 H2.
  apply chat_inr in H1 as (st1 & _ & H1). apply chat_inr in H2 as (st2 & _ & H2).
  rewrite respond_by_kind, Hq, count_compliant_filter in H1, H2.
  rewrite (Permutation_length P), (filter_length_permutation is_compliant _ _ P) in H1.
  congruence.
Qed.

Lemma score_ignores_batch_order_witness :
  "Based on the analysis, the overall compliance score is 50.0%. 1 issues were found."
  = "Based on the analysis, the overall compliance score is 50.0%. 1 issues were found.".
Proof.
  exact (score_ignores_batch_order "overall result?" "" ""
           [insulation_50_45; SamplesMore.insulation_50_55]
           [SamplesMore.insulation_50_55; insulation_50_45]
           _ _ (perm_swap _ _ []) eq_refl eq_refl eq_refl).
Defined.

(** *** The answers for the batches whose scan returns *)

(** For a batch with no record of a category, or whose first such
    record is an insulation record, the scan returns and the call is
    the answer built from it. *)
Lemma chat_when_insulation_first (q d r : string) (batch : list record) :
  first_category batch = None \/ first_category batch = Some Insulation ->
  exists st,
    scan initial_locals batch = inr st
    /\ chat_with_documents q d r batch
       = respond q (percentage (count_compliant batch) (Z.of_nat (length batch)))
                 (Z.of_nat (length batch) - count_compliant batch) st.
Proof.
  intros F. pose proof (scan_initial_cases batch) as H.
  destruct F as [F|F]; rewrite F in H; destruct H as (st & Hs);
    exists st; (split; [exact Hs | now apply chat_of_scan]).
Qed.

Lemma is_compliant_decide (rec : record) :
  is_compliant rec = bool_decide (rec !! "compliance_status" = Some "Compliant").
Proof.
  unfold is_compliant. destruct (rec !! "compliance_status") as [status|].
  - destruct (String.eqb_spec status "Compliant") as [->|N].
    + now rewrite bool_decide_eq_true_2.
    + rewrite bool_decide_eq_false_2; [reflexivity | congruence].
  - now rewrite bool_decide_eq_false_2.
Qed.

Lemma filter_ext_length {A} (f g : A -> bool) (l : list A) :
  (forall x, f x = g x) -> length (List.filter f l) = length (List.filter g l).
Proof.
  intros E. induction l as [|x l IH]; [reflexivity|]. simpl.
  rewrite <- E. destruct (f x); simpl; now rewrite IH.
Qed.

(** X14: for a batch whose scan returns, a question on compliance is
    answered with the percentage [compliant / total * 100] (the
    integer 0 for the empty batch) printed with one decimal, and with
    [total - compliant] issues, where [compliant] is the number of
    records whose [compliance_status] entry is "Compliant"; for 4
    records with 1 compliant the answer reads 25.0% and 3 issues. *)
Theorem compliance_answer_reports_score
    (q d r : string) (batch : list record) :
  classify_question q = AskCompliance ->
  first_category batch = None \/ first_category batch = Some Insulation ->
  let total := Z.of_nat (length batch) in
  let compliant :=
    Z.of_nat (length (List.filter
                        (fun rec => bool_decide
                                      (rec !! "compliance_status" = Some "Compliant"))
                        batch)) in
  chat_with_documents q d r batch
  = inr (responses_compliance
           (format_1f
              match batch with
              | [] => PInt 0
              | _ :: _ => PFloat (fmul (fdiv (float_of_Z compliant) (float_of_Z total))
                                       (float_of_Z 100))
              end)
           (str_of_Z (total - compliant)))
  /\ (length batch = 4%nat -> compliant = 1%Z ->
      chat_with_documents q d r batch
      = inr "Based on the analysis, the overall compliance score is 25.0%. 3 issues were found.").
Proof.
  intros Hq F total compliant.
  destruct (chat_when_insulation_first q d r batch F) as (st & _ & ->).
  rewrite respond_by_kind, Hq, count_compliant_filter.
  rewrite (filter_ext_length is_compliant _ batch is_compliant_decide).
  fold total compliant.
  assert (P : percentage compliant total
              = match batch with
                | [] => PInt 0
                | _ :: _ => PFloat (fmul (fdiv (float_of_Z compliant) (float_of_Z total))
                                         (float_of_Z 100))
                end).
  { unfold percentage, total. destruct batch as [|r0 more]; [reflexivity|].
    simpl length. destruct (0 <? Z.of_nat (S (length more)))%Z eqn:E; [reflexivity|].
    apply Z.ltb_ge in E. lia. }
  rewrite P. split; [reflexivity|].
  intros L C. rewrite C. unfold total. rewrite L.
  destruct batch as [|r0 more]; [discriminate L|]. reflexivity.
Qed.

Lemma compliance_answer_reports_score_witness :
  chat_with_documents "What is the compliance score?" "" ""
    [insulation_50_45; seismic_035_025; emergency_72_96; pumps_words]
  = inr "Based on the analysis, the overall compliance score is 25.0%. 3 issues were found."
  /\ chat_with_documents "overall result?" "" "" [SamplesMore.material_grade]
     = inr "Based on the analysis, the overall compliance score is 100.0%. 0 issues were found.".
Proof.
  split.
  - exact (proj2 (compliance_answer_reports_score
                    "What is the compliance score?" "" ""
                    [insulation_50_45; seismic_035_025; emergency_72_96; pumps_words]
                    eq_refl (or_intror eq_refl))
                 eq_refl eq_refl).
  - exact (proj1 (compliance_answer_reports_score
                    "overall result?" "" "" [SamplesMore.material_grade]
                    eq_refl (or_introl eq_refl))).
Defined.

(** X15: for a batch whose scan returns, a question on emergency power
    is answered with the last design and required hours found and
    with "meets" exactly when neither is "N/A" and the design value is
    greater than or equal to the required value as floats, the numeric
    type both are parsed to, and with "does not meet" otherwise.  An
    equal value meets; a design value that is at least the required
    value as an integer meets; and below [2^53], where the parse is
    exact, "meets" is exactly the order of the two integers. *)
Theorem emergency_answer_states_meets
    (q d r : string) (batch : list record) :
  classify_question q = AskTopic Emergency ->
  first_category batch = None \/ first_category batch = Some Insulation ->
  let dh := last_found Emergency Design batch in
  let rh := last_found Emergency Requirement batch in
  exists meets,
    chat_with_documents q d r batch = inr (responses_emergency dh meets rh)
    /\ (meets = "meets" \/ meets = "does not meet")
    /\ (meets = "meets" <->
        dh <> "N/A" /\ rh <> "N/A"
        /\ fge (hours_value dh) (hours_value rh) = true)
    /\ (dh <> "N/A" -> dh = rh -> meets = "meets")
    /\ (dh <> "N/A" -> rh <> "N/A" ->
        (int_of_digits rh <= int_of_digits dh)%Z -> meets = "meets")
    /\ ((int_of_digits dh < 2 ^ 53)%Z -> (int_of_digits rh < 2 ^ 53)%Z ->
        (meets = "meets" <->
         dh <> "N/A" /\ rh <> "N/A" /\ (int_of_digits rh <= int_of_digits dh)%Z)).
Proof.
  intros Hq F dh rh.
  destruct (chat_when_insulation_first q d r batch F) as (st & Hs & ->).
  rewrite respond_by_kind, Hq.
  change (design_hours st) with (slot Emergency Design st).
  change (required_hours st) with (slot Emergency Requirement st).
  rewrite (scan_initial_slot _ _ Emergency Design Hs),
          (scan_initial_slot _ _ Emergency Requirement Hs).
  fold dh rh.
  destruct (meets_text_total dh rh) as [m Hm].
  { destruct (last_found_cases Emergency Design batch) as [|(rec & _ & X)];
      [now left | right; now apply extract_hours_digits in X]. }
  { destruct (last_found_cases Emergency Requirement batch) as [|(rec & _ & X)];
      [now left | right; now apply extract_hours_digits in X]. }
  rewrite Hm. exists m. split; [reflexivity|].
  destruct (meets_text_inr _ _ _ Hm)
    as [(-> & Nd & Nr & Dd & Dr & G)|(-> & Hno)].
  - split; [now left|]. split; [tauto|]. split; [tauto|]. split; [tauto|].
    intros Bd Br. unfold hours_value in G.
    rewrite (FloatFacts.fge_small (int_of_digits dh) (int_of_digits rh)) in G
      by (split; [now apply int_of_digits_nonneg | assumption]).
    apply Z.leb_le in G. tauto.
  - split; [now right|].
    assert (N : ~ (dh <> "N/A" /\ rh <> "N/A"
                  /\ fge (hours_value dh) (hours_value rh) = true)).
    { intros (Nd & Nr & G). destruct Hno as [E|[E|(_ & _ & G')]];
        [now apply Nd | now apply Nr | congruence]. }
    assert (Le : dh <> "N/A" -> rh <> "N/A" ->
                 ~ (int_of_digits rh <= int_of_digits dh)%Z).
    { intros Nd Nr L.
      destruct Hno as [E|[E|(Dd & Dr & G)]]; [now apply Nd | now apply Nr |].
      unfold hours_value in G.
      rewrite FloatFacts.fge_mono in G; [discriminate|].
      split; [now apply int_of_digits_nonneg | exact L]. }
    split; [split; [discriminate | intros X; now destruct (N X)]|].
    split; [|split].
    + intros Nd E. exfalso. apply N. rewrite <- E.
      repeat split; try assumption.
      apply FloatFacts.fge_refl, FloatFacts.float_of_Z_not_nan.
    + intros Nd Nr L. now destruct (Le Nd Nr).
    + intros Bd Br. split; [discriminate|].
      intros (Nd & Nr & L). now destruct (Le Nd Nr).
Qed.

Lemma emergency_answer_states_meets_witness :
  chat_with_documents "How many hours of emergency power?" "" ""
    [insulation_50_45; emergency_72_8]
  = inr "The emergency cooling system can operate for 8 hours without external power, which does not meet the required 72 hours."
  /\ chat_with_documents "How many hours of emergency power?" "" ""
       [insulation_50_45; emergency_72_96]
     = inr "The emergency cooling system can operate for 96 hours without external power, which meets the required 72 hours.".
Proof.
  split.
  - destruct (emergency_answer_states_meets
                "How many hours of emergency power?" "" ""
                [insulation_50_45; emergency_72_8] eq_refl (or_intror eq_refl))
      as (meets & -> & [-> | ->] & _ & _ & _ & Exact).
    + exfalso.
      assert (L : (int_of_digits "72" <= int_of_digits "8")%Z)
        by (apply Exact; [reflexivity | reflexivity | reflexivity]).
      vm_compute in L. now apply L.
    + reflexivity.
  - destruct (emergency_answer_states_meets
                "How many hours of emergency power?" "" ""
                [insulation_50_45; emergency_72_96] eq_refl (or_intror eq_refl))
      as (meets & -> & _ & _ & _ & Ge & _).
    rewrite Ge; [reflexivity | discriminate | discriminate |].
    vm_compute. discriminate.
Defined.

(** X16: for a batch whose scan returns, a question on the pumps is
    answered with the last pump counts found, and a side on which no
    text of the batch has a run of digits right before "independent"
    or "separate" renders as "N/A". *)
Theorem pumps_answer_without_adjacent_token
    (q d r : string) (batch : list record) (sd : side) :
  classify_question q = AskTopic Pumps ->
  first_category batch = None \/ first_category batch = Some Insulation ->
  (forall rec, In rec batch -> forall g, ~ adjacent g (side_text sd rec)) ->
  last_found Pumps sd batch = "N/A"
  /\ chat_with_documents q d r batch
     = inr (responses_pumps (last_found Pumps Design batch)
                            (last_found Pumps Requirement batch)).
Proof.
  intros Hq F Hno. split.
  - apply last_found_none. intros rec I. unfold extract.
    destruct (classify rec) as [t'|]; [|reflexivity].
    destruct (topic_eqb Pumps t'); [|reflexivity]. simpl.
    destruct (Re.search pumps_pattern (side_text sd rec)) as [g|] eqn:E;
      [|reflexivity].
    destruct (Hno rec I g). now apply pumps_search_adjacent.
  - destruct (chat_when_insulation_first q d r batch F) as (st & Hs & ->).
    rewrite respond_by_kind, Hq.
    change (design_pumps st) with (slot Pumps Design st).
    change (required_pumps st) with (slot Pumps Requirement st).
    now rewrite (scan_initial_slot _ _ Pumps Design Hs),
                (scan_initial_slot _ _ Pumps Requirement Hs).
Qed.

Lemma pumps_answer_without_adjacent_token_witness :
  last_found Pumps Design [insulation_50_45; pumps_not_adjacent] = "N/A"
  /\ chat_with_documents "How many containment pumps are there?" "" ""
       [insulation_50_45; pumps_not_adjacent]
     = inr "The containment spray system has N/A pumps, while regulations require minimum N/A pumps.".
Proof.
  apply (pumps_answer_without_adjacent_token
           "How many containment pumps are there?" "" ""
           [insulation_50_45; pumps_not_adjacent] Design eq_refl (or_intror eq_refl)).
  intros rec I. apply pumps_search_none.
  destruct I as [<-|[<-|[]]]; vm_compute; reflexivity.
Defined.

End ResponderMore.

(** ** More on the benchmark harness *)
Module BenchmarkMore.
Import Py PyMore Benchmark BenchmarkFacts Report Tally.

(** *** The status table *)

Lemma count_status_lookup (status_counts : gmap string Z)
    (case : CaseResult.t) (s : string) :
  count_status status_counts case !! s
  = if String.eqb (status_of case) s
    then Some (default 0%Z (status_counts !! s) + 1)%Z
    else status_counts !! s.
Proof.
  unfold count_status. fold (status_of case).
  destruct (String.eqb_spec (status_of case) s) as [<-|N].
  - now rewrite lookup_insert_eq.
  - now rewrite lookup_insert_ne.
Qed.

Lemma fold_count_status (cases : list CaseResult.t)
    (status_counts : gmap string Z) (s : string) :
  fold_left count_status cases status_counts !! s
  = let n := count (fun case => String.eqb (status_of case) s) cases in
    if (n =? 0)%Z then status_counts !! s
    else Some (default 0%Z (status_counts !! s) + n)%Z.
Proof.
  revert status_counts; induction cases as [|case cases IH]; intros m.
  - reflexivity.
  - simpl fold_left. rewrite IH, count_status_lookup, count_cons. cbv zeta.
    pose proof (count_nonneg (fun case => String.eqb (status_of case) s) cases) as P.
    destruct (String.eqb (status_of case) s); simpl default.
    + destruct (Z.eqb_spec (1 + count (fun case => String.eqb (status_of case) s) cases) 0)
        as [|_]; [lia|].
      destruct (Z.eqb_spec (count (fun case => String.eqb (status_of case) s) cases) 0)
        as [->|_]; f_equal; lia.
    + now rewrite Z.add_0_l.
Qed.

(** X9: the status table of the summary holds, for every status, the
    number of cases with that [actual_status], a case without the
    entry (a check that raised) being counted under "Unknown"; a
    status that no case has is not in the table. *)
Theorem status_distribution_counts (cases : list CaseResult.t) (s : string) :
  let n := count (fun case => String.eqb (status_of case) s) cases in
  status_distribution (_calculate_summary_metrics cases) !! s
  = if (n =? 0)%Z then None else Some n.
Proof.
  intros n. unfold _calculate_summary_metrics; simpl.
  rewrite fold_count_status, lookup_empty. fold n. simpl.
  destruct (n =? 0)%Z; [reflexivity | now rewrite Z.add_0_l].
Qed.

(** *** The category table *)

(** X10: the category table of the summary has an entry exactly for
    the categories that occur among the cases ("unknown" for a case
    without the entry); an entry holds the number of cases of its
    category, at least 1, the number of correct ones, between 0 and
    the former, and the accuracy computed from the two. *)
Theorem category_performance_entries (cases : list CaseResult.t) (c : string) :
  let n := count (in_category c) cases in
  let k := count (fun case => in_category c case && get_is_correct case) cases in
  match category_performance (_calculate_summary_metrics cases) !! c with
  | None => n = 0%Z
  | Some st =>
      total st = n /\ correct st = k
      /\ (1 <= n)%Z /\ (0 <= k <= n)%Z
      /\ accuracy st
         = Some (PFloat (fmul (fdiv (float_of_Z k) (float_of_Z n)) (float_of_Z 100)))
  end.
Proof.
  intros n k. unfold _calculate_summary_metrics; simpl.
  rewrite lookup_fmap, fold_count_case, lookup_empty. fold n k.
  pose proof (count_nonneg (in_category c) cases) as Pn. fold n in Pn.
  pose proof (count_nonneg
                (fun case => in_category c case && get_is_correct case) cases) as Pk.
  pose proof (count_and_le (in_category c) get_is_correct cases) as Q.
  fold k in Pk, Q. fold n in Q.
  unfold add_counts. destruct (Z.eqb_spec n 0) as [E|N]; simpl; [exact E|].
  rewrite !Z.add_0_l. repeat split; try lia.
  unfold accuracy_of. destruct (0 <? n)%Z eqn:L; [reflexivity|].
  apply Z.ltb_ge in L. lia.
Qed.

(** *** Sums over the tables *)

Lemma sum_values_insert_new {A} (g : A -> Z) (m : gmap string A) (i : string) (x : A) :
  m !! i = None -> sum_values g (<[i:=x]> m) = (g x + sum_values g m)%Z.
Proof.
  intros H. unfold sum_values.
  rewrite map_fold_insert_L; [reflexivity | | exact H].
  intros. lia.
Qed.

Lemma sum_values_insert {A} (g : A -> Z) (m : gmap string A) (i : string) (x : A) :
  sum_values g (<[i:=x]> m)
  = (g x + sum_values g m - match m !! i with Some y => g y | None => 0 end)%Z.
Proof.
  destruct (m !! i) as [y|] eqn:E.
  - rewrite <- (insert_delete_id m i y E) at 2.
    rewrite <- (insert_delete_eq m i x).
    rewrite !sum_values_insert_new by apply lookup_delete_eq. lia.
  - rewrite sum_values_insert_new by assumption. lia.
Qed.

Lemma count_case_insert (categories : gmap string category_stats) (case : CaseResult.t) :
  count_case categories case
  = <[category_of case :=
        Stats (total (stats_or_new (categories !! category_of case)) + 1)
              (correct (stats_or_new (categories !! category_of case))
               + (if get_is_correct case then 1 else 0))
              (accuracy (stats_or_new (categories !! category_of case)))]> categories.
Proof.
  apply map_eq. intros c. rewrite count_case_lookup. unfold in_category.
  destruct (String.eqb_spec (category_of case) c) as [<-|N].
  - now rewrite lookup_insert_eq.
  - now rewrite lookup_insert_ne.
Qed.

Lemma sum_count_case (categories : gmap string category_stats) (case : CaseResult.t) :
  sum_values total (count_case categories case)
  = (sum_values total categories + 1)%Z
  /\ sum_values correct (count_case categories case)
     = (sum_values correct categories + (if get_is_correct case then 1 else 0))%Z.
Proof.
  rewrite count_case_insert, !sum_values_insert.
  destruct (categories !! category_of case); simpl; lia.
Qed.

Lemma sum_fold_count_case (cases : list CaseResult.t)
    (categories : gmap string category_stats) :
  sum_values total (fold_left count_case cases categories)
  = (sum_values total categories + Z.of_nat (length cases))%Z
  /\ sum_values correct (fold_left count_case cases categories)
     = (sum_values correct categories + count get_is_correct cases)%Z.
Proof.
  revert categories; induction cases as [|case cases IH]; intros m.
  - unfold count; simpl. lia.
  - simpl fold_left. destruct (IH (count_case m case)) as [-> ->].
    destruct (sum_count_case m case) as [-> ->].
    rewrite count_cons. simpl length. destruct (get_is_correct case); lia.
Qed.

Lemma sum_fold_count_status (cases : list CaseResult.t) (status_counts : gmap string Z) :
  sum_values id (fold_left count_status cases status_counts)
  = (sum_values id status_counts + Z.of_nat (length cases))%Z.
Proof.
  revert status_counts; induction cases as [|case cases IH]; intros m.
  - simpl. lia.
  - simpl fold_left. rewrite IH. unfold count_status at 1.
    rewrite sum_values_insert.
    destruct (m !! default "Unknown" (CaseResult.actual_status case));
      cbn [from_option id length]; unfold id; lia.
Qed.

(** X11: the tables of the summary account for every case once: the
    case counts of the categories add up to the number of cases, their
    correct counts add up to the number of correct predictions, and
    the counts of the statuses add up to the number of cases. *)
Theorem summary_tables_add_up (cases : list CaseResult.t) :
  let s := _calculate_summary_metrics cases in
  sum_values total (category_performance s) = total_test_cases s
  /\ sum_values correct (category_performance s) = correct_predictions s
  /\ sum_values id (status_distribution s) = total_test_cases s.
Proof.
  unfold _calculate_summary_metrics; simpl.
  destruct (sum_fold_count_case cases ∅) as [T C].
  pose proof (sum_fold_count_status cases ∅) as S.
  unfold sum_values in *. rewrite !map_fold_fmap.
  rewrite map_fold_empty in T. rewrite map_fold_empty in C.
  rewrite map_fold_empty in S.
  rewrite correct_cases_from.
  split; [exact T|]. split; [exact C | exact S].
Qed.

(** *** The timing entry *)

(** X12: the benchmark run raises exactly when there is no test case
    or the elapsed time is zero, and then with a division by zero,
    after the checks were run and the summary was computed; otherwise
    it returns the cases and the summary with the elapsed time, its
    average per case and the cases per second. *)
Theorem benchmark_run_raises_without_cases
    (check_compliance : string -> string -> result (gmap string string))
    (test_cases : list TestCase.t) (total_time : spec_float) :
  let run := run_compliance_benchmark check_compliance test_cases total_time in
  let n := float_of_Z (Z.of_nat (length test_cases)) in
  (forall e, run = inl e -> e = ZeroDivisionError)
  /\ ((exists e, run = inl e) <-> test_cases = [] \/ is_zero total_time = true)
  /\ (forall out, run = inr out ->
        out = (map (run_case check_compliance) test_cases,
               _calculate_summary_metrics (map (run_case check_compliance) test_cases),
               Performance total_time (fdiv total_time n) (fdiv n total_time))).
Proof.
  intros run n. unfold run, run_compliance_benchmark, measure, truediv.
  fold n.
  assert (Zn : is_zero n = true <-> test_cases = []).
  { unfold n. rewrite float_of_Z_is_zero by lia.
    destruct test_cases; simpl; split; intros H; try reflexivity; try discriminate; lia. }
  destruct (is_zero n) eqn:En; simpl.
  - split; [now intros e [= <-]|]. split.
    + split; [intros _; left; now apply Zn | eauto].
    + discriminate.
  - destruct (is_zero total_time) eqn:Et; simpl.
    + split; [now intros e [= <-]|]. split.
      * split; [intros _; now right | eauto].
      * discriminate.
    + split; [discriminate|]. split.
      * split; [intros (e & E); discriminate|].
        intros [E|E]; [|discriminate]. apply Zn in E. discriminate.
      * now intros out [= <-].
Qed.

(** *** The rows of the report *)

Lemma render_row_of_run_case
    (check_compliance : string -> string -> result (gmap string string))
    (tc : TestCase.t) (time : option num) :
  match check_compliance (TestCase.design tc) (TestCase.regulation tc) with
  | inr _ => exists row, render_row (run_case check_compliance tc) time = inr row
  | inl _ => render_row (run_case check_compliance tc) time
             = inl (KeyError "expected_status")
  end.
Proof.
  unfold run_case.
  destruct (check_compliance (TestCase.design tc) (TestCase.regulation tc));
    unfold render_row; simpl; eauto.
Qed.

(** X13: the rows of the HTML report can be rendered exactly when
    every check of the run returned: a case whose check raised has no
    [expected_status] entry, and the row of the first such case raises
    a [KeyError] for it. *)
Theorem report_rows_need_returned_checks
    (check_compliance : string -> string -> result (gmap string string))
    (timed : list (TestCase.t * option num)) (html : string) :
  let cases := map (fun x => (run_case check_compliance (fst x), snd x)) timed in
  let returned := fun x : TestCase.t * option num =>
    exists res, check_compliance (TestCase.design (fst x))
                                 (TestCase.regulation (fst x)) = inr res in
  (Forall returned timed -> exists out, render_rows html cases = inr out)
  /\ (~ Forall returned timed ->
      render_rows html cases = inl (KeyError "expected_status")).
Proof.
  intros cases returned. unfold cases. clear cases.
  revert html; induction timed as [|[tc time] more IH]; intros html.
  - split; [simpl; eauto | intros N; destruct N; constructor].
  - change (map (fun x => (run_case check_compliance (fst x), snd x))
                ((tc, time) :: more))
      with ((run_case check_compliance tc, time)
              :: map (fun x => (run_case check_compliance (fst x), snd x)) more).
    simpl render_rows.
    pose proof (render_row_of_run_case check_compliance tc time) as R.
    destruct (check_compliance (TestCase.design tc) (TestCase.regulation tc))
      as [e|res] eqn:E.
    + rewrite R. simpl. split; [|reflexivity].
      intros F. inversion F as [|x l (res & Hres) _]; subst.
      simpl in Hres. congruence.
    + destruct R as (row & ->). simpl.
      destruct (IH (html +:+ row)) as [Ok Ko]. split.
      * intros F. inversion F; subst. now apply Ok.
      * intros N. apply Ko. intros F. apply N. constructor; [|exact F].
        exists res. exact E.
Qed.

Lemma report_rows_need_returned_checks_witness :
  (exists out,
      render_rows ""
        (map (fun x => (run_case always_non_compliant (fst x), snd x))
             (map (fun tc => (tc, Some (PInt 0))) _load_test_cases))
      = inr out)
  /\ render_rows ""
       (map (fun x => (run_case always_raises (fst x), snd x))
            (map (fun tc => (tc, Some (PInt 0))) _load_test_cases))
     = inl (KeyError "expected_status").
Proof.
  split.
  - apply (report_rows_need_returned_checks always_non_compliant).
    repeat constructor; eexists; reflexivity.
  - apply (report_rows_need_returned_checks always_raises).
    intros F. inversion F as [|x l (res & Hres) _]. discriminate Hres.
Defined.

End BenchmarkMore.
